(** * The component surface of the raptor engine (html-element.ts)

    A shallow embedding of [packages/raptor-engine/src/framework/html-element.ts]:
    the accessor generators for public and wired properties and the members of
    [ComponentElement.prototype], over an explicit JavaScript store.

    The modules that html-element.ts imports (assert, reactive, watcher,
    component, invoker, vm, piercing, root, utils, dom) are not part of the
    sources at hand.  Their functions are either taken as parameters (class
    [Collaborators]) or modelled from the specification; every such definition
    says so in its documentation. *)

From stdpp Require Import base gmap strings list.
From Stdlib Require Import ZArith Ascii.

(** ** JavaScript values and the object store *)

Definition loc := nat.

(** A DOM node as the engine tags it: its identity and the key of the
    component whose template declared it. *)
Record Node := mkNode { node_id : nat; node_owner : nat }.

#[global] Instance Node_eq_dec : EqDecision Node.
Proof. solve_decision. Defined.

(** [VRef l] is a reference to the object stored at [l]; [VProxy l] is the
    reactive proxy of that object.  One object has one proxy, so the proxy is
    named by the location of its target.  [VMethod name] is the function
    object of the prototype member [name]. *)
Inductive value :=
  | VUndefined
  | VNull
  | VBool (b : bool)
  | VNum (n : Z)
  | VStr (s : string)
  | VRef (l : loc)
  | VProxy (l : loc)
  | VDom (n : Node)
  | VDomList (ns : list Node)
  | VMethod (name : string).

#[global] Instance value_eq_dec : EqDecision value.
Proof. solve_decision. Defined.

Inductive ObjKind := PlainObject | ArrayObject | ExoticObject.

#[global] Instance ObjKind_eq_dec : EqDecision ObjKind.
Proof. solve_decision. Defined.

Record JSObject := mkObject {
  obj_kind : ObjKind;
  obj_fields : gmap string value
}.

(** [create(null)]: a record with no fields. *)
Definition emptyObject : JSObject := mkObject PlainObject ∅.

(** ** The view-model *)

Record Elm := mkElm {
  elm_id : nat;
  elm_tagName : string;
  elm_tabIndex : Z                         (* a 32-bit long; writes wrap around *)
}.

Record VNode := mkVNode {
  sel : string;
  attrs : option (gmap string value);      (* vnode.data.attrs *)
  elm : Elm
}.

Record VM := mkVM {
  uid : nat;
  idx : nat;
  vnode : VNode;
  def_props : gmap string value;           (* vm.def.props *)
  cmpProps : loc;                          (* the public-props record *)
  cmpWired : value;
  cmpState : value;
  cmpClasses : value;
  classListObj : value;
  cmpRoot : value
}.

Inductive Level := LevelError | LevelWarn | LevelLog.

#[global] Instance Level_eq_dec : EqDecision Level.
Proof. solve_decision. Defined.

(** The world an accessor runs in: the object store, the view-model bound to
    [this], the globals of invoker.ts and component.ts, the watcher registry
    with the contexts it has scheduled, and the console. *)
Record State := mkState {
  heap : gmap loc JSObject;
  vm : VM;
  isRendering : bool;
  vmBeingRendered : option nat;
  vmBeingConstructed : option nat;
  listeners : list (loc * string * nat);
  scheduled : list nat;
  console : list (Level * string)
}.

Definition with_heap (h : gmap loc JSObject) (st : State) : State :=
  mkState h (vm st) (isRendering st) (vmBeingRendered st) (vmBeingConstructed st)
          (listeners st) (scheduled st) (console st).

Definition with_vm (v : VM) (st : State) : State :=
  mkState (heap st) v (isRendering st) (vmBeingRendered st) (vmBeingConstructed st)
          (listeners st) (scheduled st) (console st).

Definition with_listeners (ls : list (loc * string * nat)) (st : State) : State :=
  mkState (heap st) (vm st) (isRendering st) (vmBeingRendered st) (vmBeingConstructed st)
          ls (scheduled st) (console st).

Definition with_scheduled (q : list nat) (st : State) : State :=
  mkState (heap st) (vm st) (isRendering st) (vmBeingRendered st) (vmBeingConstructed st)
          (listeners st) q (console st).

Definition with_console (c : list (Level * string)) (st : State) : State :=
  mkState (heap st) (vm st) (isRendering st) (vmBeingRendered st) (vmBeingConstructed st)
          (listeners st) (scheduled st) c.

Definition with_rendering (b : bool) (ctx : option nat) (st : State) : State :=
  mkState (heap st) (vm st) b ctx (vmBeingConstructed st)
          (listeners st) (scheduled st) (console st).

Definition with_constructed (c : option nat) (st : State) : State :=
  mkState (heap st) (vm st) (isRendering st) (vmBeingRendered st) c
          (listeners st) (scheduled st) (console st).

Definition vm_with_cmpWired (w : value) (v : VM) : VM :=
  mkVM (uid v) (idx v) (vnode v) (def_props v) (cmpProps v) w (cmpState v)
       (cmpClasses v) (classListObj v) (cmpRoot v).

Definition vm_with_cmpState (s : value) (v : VM) : VM :=
  mkVM (uid v) (idx v) (vnode v) (def_props v) (cmpProps v) (cmpWired v) s
       (cmpClasses v) (classListObj v) (cmpRoot v).

Definition vm_with_cmpClasses (c : value) (v : VM) : VM :=
  mkVM (uid v) (idx v) (vnode v) (def_props v) (cmpProps v) (cmpWired v) (cmpState v)
       c (classListObj v) (cmpRoot v).

Definition vm_with_classListObj (c : value) (v : VM) : VM :=
  mkVM (uid v) (idx v) (vnode v) (def_props v) (cmpProps v) (cmpWired v) (cmpState v)
       (cmpClasses v) c (cmpRoot v).

Definition vm_with_cmpRoot (r : value) (v : VM) : VM :=
  mkVM (uid v) (idx v) (vnode v) (def_props v) (cmpProps v) (cmpWired v) (cmpState v)
       (cmpClasses v) (classListObj v) r.

Definition vm_with_tabIndex (z : Z) (v : VM) : VM :=
  mkVM (uid v) (idx v)
       (mkVNode (sel (vnode v)) (attrs (vnode v))
                (mkElm (elm_id (elm (vnode v))) (elm_tagName (elm (vnode v))) z))
       (def_props v) (cmpProps v) (cmpWired v) (cmpState v)
       (cmpClasses v) (classListObj v) (cmpRoot v).

(** ** Computations: state and exceptions *)

Inductive Exn :=
  | TypeError (msg : string)
  | ReferenceError (msg : string)
  | Error (msg : string).

Inductive Completion (A : Type) :=
  | Normal (a : A)
  | Throw (e : Exn).
Arguments Normal {A} a.
Arguments Throw {A} e.

Definition M (A : Type) : Type := State -> Completion A * State.

Definition ret {A} (a : A) : M A := fun st => (Normal a, st).

Definition bind {A B} (m : M A) (k : A -> M B) : M B :=
  fun st => match m st with
            | (Normal a, st') => k a st'
            | (Throw e, st') => (Throw e, st')
            end.

Definition throw {A} (e : Exn) : M A := fun st => (Throw e, st).
Definition current : M State := fun st => (Normal st, st).
Definition modify (f : State -> State) : M unit := fun st => (Normal tt, f st).
Definition when (b : bool) (m : M unit) : M unit := if b then m else ret tt.

Declare Scope js_scope.
Delimit Scope js_scope with js.
Notation "'let!' x ':=' m 'in' k" := (bind m (fun x => k))
  (at level 10, x name, m at level 100, k at level 200) : js_scope.
Notation "m '>>' k" := (bind m (fun _ => k))
  (at level 100, k at level 200, right associativity) : js_scope.
Local Open Scope js_scope.

(** ** Strings of the messages *)

Definition dquote : string := String (ascii_of_nat 34) EmptyString.
Definition newline : string := String (ascii_of_nat 10) EmptyString.
Definition quoted (s : string) : string := dquote +:+ s +:+ dquote.

(** [Array.prototype.join]. *)
Fixpoint join (sep : string) (parts : list string) : string :=
  match parts with
  | [] => EmptyString
  | [p] => p
  | p :: rest => p +:+ sep +:+ join sep rest
  end.

(** ** language.ts, reactive.ts, watcher.ts, assert.ts, component.ts *)

Definition lookupObject (h : gmap loc JSObject) (l : loc) : JSObject :=
  default emptyObject (h !! l).

Definition readField (h : gmap loc JSObject) (l : loc) (key : string) : value :=
  default VUndefined (obj_fields (lookupObject h l) !! key).

Definition writeField (h : gmap loc JSObject) (l : loc) (key : string) (v : value)
  : gmap loc JSObject :=
  <[l := mkObject (obj_kind (lookupObject h l)) (<[key := v]> (obj_fields (lookupObject h l)))]> h.

Definition kindOf (h : gmap loc JSObject) (v : value) : option ObjKind :=
  match v with
  | VRef l | VProxy l => Some (obj_kind (lookupObject h l))
  | _ => None
  end.

(** JavaScript truthiness, as [!x], [x && y] and [x ? a : b] test it. *)
Definition truthy (v : value) : bool :=
  match v with
  | VUndefined | VNull => false
  | VBool b => b
  | VNum n => negb (n =? 0)%Z
  | VStr s => bool_decide (s ≠ EmptyString)
  | _ => true
  end.

Definition isUndefined (v : value) : bool := bool_decide (v = VUndefined).

Definition isArray (h : gmap loc JSObject) (v : value) : bool :=
  bool_decide (kindOf h v = Some ArrayObject).

(** Modelled from the spec: [isObject] of language.ts, which is not in the
    sources; taken as the test [typeof value === 'object']. *)
Definition isObject (v : value) : bool :=
  match v with
  | VNull | VRef _ | VProxy _ | VDom _ | VDomList _ => true
  | _ => false
  end.

(** [create(null)] and [new C(vm)]: a fresh object in the store. *)
Definition allocate (o : JSObject) : M value :=
  fun st => let l := fresh (dom (heap st)) in
            (Normal (VRef l), with_heap (<[l := o]> (heap st)) st).

Definition create_null : M value := allocate emptyObject.

(** Modelled from the spec: [isObservable] of reactive.ts, which is not in the
    sources.  A value is eligible when it is a non-null structured record or
    sequence that does not carry the non-reactive marker. *)
Definition isObservable (h : gmap loc JSObject) (v : value) : bool :=
  match kindOf h v with
  | Some PlainObject | Some ArrayObject => true
  | _ => false
  end.

(** Modelled from the spec: [getReactiveProxy] of reactive.ts, which is not in
    the sources.  Wrapping is idempotent: an object has one wrapper and the
    wrapper of a wrapper is that wrapper. *)
Definition getReactiveProxy (v : value) : value :=
  match v with
  | VRef l => VProxy l
  | _ => v
  end.

Definition obsId (v : value) : option loc :=
  match v with
  | VRef l | VProxy l => Some l
  | _ => None
  end.

(** Modelled from the spec: the registry of watcher.ts, which is not in the
    sources.  It maps (observable identity, key) to a set of subscriber
    contexts: a triple is entered once. *)
Definition addListener (ls : list (loc * string * nat)) (l : loc) (key : string) (c : nat)
  : list (loc * string * nat) :=
  if bool_decide ((l, key, c) ∈ ls) then ls else ls ++ [(l, key, c)].

(** Modelled from the spec: [subscribeToSetHook] of watcher.ts, which is not in
    the sources.  It enters the context in the subscriber set of the pair;
    outside an active render it is a no-op. *)
Definition subscribeToSetHook (ctx : option nat) (target : value) (key : string) : M unit :=
  fun st =>
    if isRendering st then
      match ctx, obsId target with
      | Some c, Some l => (Normal tt, with_listeners (addListener (listeners st) l key c) st)
      | _, _ => (Normal tt, st)
      end
    else (Normal tt, st).

Definition subscribers (ls : list (loc * string * nat)) (l : loc) (key : string) : list nat :=
  snd <$> filter (λ e, e.1 = (l, key)) ls.

(** Modelled from the spec: the scheduling entry point of the rendering engine.
    The context is marked as needing a render pass; scheduling deduplicates by
    subscriber. *)
Definition scheduleRehydration (c : nat) : M unit :=
  modify (λ st, if bool_decide (c ∈ scheduled st) then st
                else with_scheduled (scheduled st ++ [c]) st).

Fixpoint forEach {A} (f : A -> M unit) (l : list A) : M unit :=
  match l with
  | [] => ret tt
  | x :: rest => f x >> forEach f rest
  end.

(** Modelled from the spec: [notifyListeners] of watcher.ts, which is not in the
    sources.  It walks the subscriber set of the (observable, key) pair and
    schedules each subscribed context. *)
Definition notifyListeners (target : value) (key : string) : M unit :=
  fun st =>
    match obsId target with
    | Some l => forEach scheduleRehydration (subscribers (listeners st) l key) st
    | None => (Normal tt, st)
    end.

(** A value is wrapped when it qualifies as observable. *)
Definition wrapIfObservable (h : gmap loc JSObject) (v : value) : value :=
  if isObservable h v then getReactiveProxy v else v.

(** Modelled from the spec: the get trap of the wrapper (reactive.ts is not in
    the sources).  [js_get target key] is [target[key]]: on a plain object it
    reads the field; on a wrapper it invokes the on-read hook and wraps an
    eligible value on demand. *)
Definition js_get (target : value) (key : string) : M value :=
  match target with
  | VRef l => let! st := current in ret (readField (heap st) l key)
  | VProxy l =>
      let! st := current in
      subscribeToSetHook (vmBeingRendered st) target key >>
      ret (wrapIfObservable (heap st) (readField (heap st) l key))
  | VUndefined | VNull =>
      throw (TypeError "Cannot read properties of undefined or null")
  | _ => ret VUndefined
  end.

(** Modelled from the spec: the set trap of the wrapper (reactive.ts is not in
    the sources).  [js_set target key v] is [target[key] = v]: on a plain
    object it writes the field; on a wrapper it invokes the underlying
    mutation and the on-write hook. *)
Definition js_set (target : value) (key : string) (v : value) : M unit :=
  match target with
  | VRef l => modify (λ st, with_heap (writeField (heap st) l key v) st)
  | VProxy l =>
      modify (λ st, with_heap (writeField (heap st) l key v) st) >>
      notifyListeners target key
  | _ => throw (TypeError "Cannot set properties of a value that is not an object")
  end.

Definition consoleWrite (lvl : Level) (msg : string) : M unit :=
  modify (λ st, with_console (console st ++ [(lvl, msg)]) st).

(** Modelled from the spec: the assert module, which is not in the sources.
    [logError] and [logWarning] report through the diagnostic channel and
    return; [fail], and [isFalse] on a true value, raise a hard failure;
    [block] runs the development-mode check it is given. *)
Definition assert_logError (msg : string) : M unit := consoleWrite LevelError msg.
Definition assert_logWarning (msg : string) : M unit := consoleWrite LevelWarn msg.
Definition assert_fail {A} (msg : string) : M A := throw (Error msg).
Definition assert_isFalse (b : bool) (msg : string) : M unit :=
  if b then throw (Error ("Assert Violation: " +:+ msg)) else ret tt.
Definition assert_block (fn : M unit) : M unit := fn.

(** [assert.vm(vm)]: the value bound to [this[ViewModelReflection]] is a
    view-model record by typing, so the check passes. *)
Definition assert_vm (v : VM) : M unit := ret tt.

(** Modelled from the spec: [isBeingConstructed] of component.ts, which is not
    in the sources.  The view-model is under construction while it is the one
    held by [vmBeingConstructed]. *)
Definition isBeingConstructed (st : State) (v : VM) : bool :=
  bool_decide (vmBeingConstructed st = Some (uid v)).

(** Modelled from the spec: the lifecycle phase of the view-model
    (constructing, rendering, idle), read off the globals that component.ts
    and invoker.ts export. *)
Inductive Phase := Constructing | Rendering | Idle.

Definition phase (st : State) : Phase :=
  if isBeingConstructed st (vm st) then Constructing
  else if isRendering st && bool_decide (vmBeingRendered st = Some (uid (vm st))) then Rendering
  else Idle.

(** Modelled from the spec: the transition constructing → idle, when the
    constructor returns control to the framework (component.ts is not in the
    sources). *)
Definition endConstruction (st : State) : State := with_constructed None st.

(** ** Object literals and numbers of the host *)

(** What the object literal inherits from [Object.prototype]. *)
Definition ObjectPrototypeNames : list string :=
  ["constructor"; "hasOwnProperty"; "isPrototypeOf"; "propertyIsEnumerable";
   "toLocaleString"; "toString"; "valueOf"; "__proto__";
   "__defineGetter__"; "__defineSetter__"; "__lookupGetter__"; "__lookupSetter__"].

(** [key in o], for an object [o] written as a literal: [key] is one of its
    own keys or a name it inherits from [Object.prototype]. *)
Definition hasProperty (o : gmap string value) (key : string) : bool :=
  bool_decide (is_Some (o !! key)) || bool_decide (key ∈ ObjectPrototypeNames).

(** [o[key]], for an object [o] written as a literal: the own value, else the
    member of [Object.prototype] of that name ([VMethod key] stands for it,
    also for [__proto__], whose accessor yields the prototype), else
    [undefined]. *)
Definition getProperty (o : gmap string value) (key : string) : value :=
  match o !! key with
  | Some x => x
  | None => if bool_decide (key ∈ ObjectPrototypeNames) then VMethod key else VUndefined
  end.

(** [attrs && key in attrs ? attrs[key] : null], for the attributes object
    that the compiled template hands over. *)
Definition rawAttribute (attrs : option (gmap string value)) (key : string) : value :=
  match attrs with
  | Some m => if hasProperty m key then getProperty m key else VNull
  | None => VNull
  end.

(** The conversion of a number to the 32-bit [long] of a DOM attribute such as
    [tabIndex]: it wraps around modulo 2^32 into [-2^31, 2^31). *)
Definition toInt32 (z : Z) : Z := ((z + 2147483648) mod 4294967296 - 2147483648)%Z.

(** ** The collaborators of html-element.ts *)

(** An entry of the global HTML attribute table of dom.ts. *)
Record GlobalHTMLProperty := mkGlobal {
  attribute : option string;
  readOnly : bool;
  experimental : bool;
  error : option string
}.

(** What html-element.ts takes from modules that are not in the sources and
    that the specification leaves to external collaborators. *)
Class Collaborators := {
  vmToString : VM -> string;                       (* `${vm}` *)
  contextToString : option nat -> string;          (* `${vmBeingRendered}` *)
  valueToString : value -> string;                 (* `${value}` *)
  getPropNameFromAttrName : string -> string;      (* utils.ts *)
  toAttributeValue : value -> value;               (* utils.ts *)
  GlobalHTMLProperties : gmap string GlobalHTMLProperty;   (* dom.ts *)
  elm_querySelectorAll : Elm -> string -> list Node;       (* the native query *)
  wasNodePassedIntoVM : VM -> Node -> bool;        (* vm.ts *)
  pierce : VM -> value -> value;                   (* piercing.ts *)
  shadowRootQuerySelector : value -> string -> value;          (* root.ts *)
  shadowRootQuerySelectorAll : value -> string -> list Node    (* root.ts *)
}.

Definition truthyString (o : option string) : bool :=
  match o with
  | Some s => bool_decide (s ≠ EmptyString)
  | None => false
  end.

Definition templateString (o : option string) : string := default "undefined" o.

(** The accessors an author's class may already define for a public property. *)
Record OriginalDescriptor := mkOriginal {
  orig_get : option (M value);
  orig_set : option (value -> M unit)
}.

Record PropertyDescriptor := mkDescriptor {
  get : M value;
  set : value -> M unit;
  enumerable : bool;
  configurable : bool
}.

Section HtmlElement.
Context `{env : Collaborators}.

(** [toString] of the component. *)
Definition toString (v : VM) : string :=
  let is_ := match attrs (vnode v) with
             | Some m => default VUndefined (m !! "is")
             | None => VUndefined
             end in
  "<" +:+ sel (vnode v)
      +:+ (if truthy is_ then " is=" +:+ dquote +:+ "${is}" else EmptyString) +:+ ">".

Definition getLinkedElement : M Elm :=
  let! st := current in ret (elm (vnode (vm st))).

Definition querySelectorAllFromComponent (selectors : string) : M (list Node) :=
  let! e := getLinkedElement in
  ret (elm_querySelectorAll e selectors).

(** The texts of the diagnostics that the statements below refer to. *)
Definition constructorReadMessage (v : VM) (propName : string) : string :=
  vmToString v +:+ " constructor should not read the value of property "
  +:+ quoted propName
  +:+ ". The owner component has not yet set the value. Instead use the constructor to set default values for properties.".

Definition lateWriteMessage (v : VM) (propName : string) : string :=
  vmToString v +:+ " can only set a new value for property "
  +:+ quoted propName +:+ " during construction.".

Definition wiredFailMessage (v : VM) (propName : string) : string :=
  vmToString v +:+ " failed to set new value into property " +:+ quoted propName
  +:+ ". It can only be set to an observable object.".

Definition stateFailMessage (v : VM) (newState : value) : string :=
  vmToString v +:+ " failed to set new state to " +:+ valueToString newState
  +:+ ". `this.state` can only be set to an observable object.".

Definition missingArgumentMessage (v : VM) : string :=
  "Failed to execute `getAttribute` on " +:+ vmToString v
  +:+ ": 1 argument is required, got 0.".

(** *** createPublicPropertyDescriptor *)

Definition publicGetter (propName : string) (origGetter : option (M value)) : M value :=
  let! st := current in
  let v := vm st in
  assert_vm v >>
  if isBeingConstructed st v then
    assert_logError (constructorReadMessage v propName) >>
    ret VUndefined
  else
    match origGetter with
    | Some g => g
    | None =>
        when (isRendering st)
             (subscribeToSetHook (vmBeingRendered st) (VRef (cmpProps v)) propName) >>
        js_get (VRef (cmpProps v)) propName
    end.

Definition publicSetter (propName : string) (origSetter : option (value -> M unit))
    (value : value) : M unit :=
  let! st := current in
  let v := vm st in
  assert_vm v >>
  if negb (isBeingConstructed st v) then
    assert_logError (lateWriteMessage v propName)
  else
    match origSetter with
    | Some s => s value
    | None =>
        let observable := isObservable (heap st) value in
        assert_block
          (when (negb observable && isObject value)
             (assert_logWarning
                ("Assigning a non-reactive value " +:+ valueToString value
                 +:+ " to member property " +:+ propName +:+ " of " +:+ vmToString v
                 +:+ " is not common because mutations on that value cannot be observed."))) >>
        js_set (VRef (cmpProps v)) propName
               (if observable then getReactiveProxy value else value)
    end.

Definition createPublicPropertyDescriptor (propName : string)
    (originalPropertyDescriptor : option OriginalDescriptor) : PropertyDescriptor :=
  {| get := publicGetter propName (originalPropertyDescriptor ≫= orig_get);
     set := publicSetter propName (originalPropertyDescriptor ≫= orig_set);
     enumerable := true;
     configurable := true |}.

(** *** createWiredPropertyDescriptor *)

(** The lazy creation of [vm.cmpWired], written out in the getter and in the
    setter alike. *)
Definition lazyCmpWired : M value :=
  let! st := current in
  if isUndefined (cmpWired (vm st)) then
    let! o := create_null in
    let w := getReactiveProxy o in
    modify (λ st, with_vm (vm_with_cmpWired w (vm st)) st) >>
    ret w
  else ret (cmpWired (vm st)).

Definition wiredGetter (propName : string) : M value :=
  let! st := current in
  assert_vm (vm st) >>
  let! cmpWired := lazyCmpWired in
  let! value := js_get cmpWired propName in
  let! st := current in
  when (isRendering st) (subscribeToSetHook (vmBeingRendered st) cmpWired propName) >>
  ret value.

Definition wiredSetter (propName : string) (value : value) : M unit :=
  let! st := current in
  let v := vm st in
  assert_vm v >>
  let observable := isObservable (heap st) value in
  if isArray (heap st) value || negb observable then
    assert_fail (wiredFailMessage v propName)
  else
    let! cmpWired := lazyCmpWired in
    js_set cmpWired propName (if observable then getReactiveProxy value else value) >>
    notifyListeners cmpWired propName.

Definition createWiredPropertyDescriptor (propName : string) : PropertyDescriptor :=
  {| get := wiredGetter propName;
     set := wiredSetter propName;
     enumerable := true;
     configurable := true |}.

(** *** ComponentElement.prototype *)

Definition toPropertyKey (v : value) : string :=
  match v with
  | VStr s => s
  | _ => valueToString v
  end.

(** [getAttribute]; [args] are the arguments of the call, so that
    [arguments.length] can be told apart from an undefined first argument. *)
Definition getAttribute (args : list value) : M value :=
  let attrName := nth 0 args VUndefined in
  let! st := current in
  let v := vm st in
  assert_vm v >>
  let attrs := attrs (vnode v) in
  if negb (truthy attrName) then
    if bool_decide (length args = 0%nat) then
      throw (TypeError (missingArgumentMessage v))
    else ret VNull
  else
    assert_block
      (let propName := getPropNameFromAttrName (toPropertyKey attrName) in
       let publicPropsConfig := def_props v in
       if truthy (default VUndefined (publicPropsConfig !! propName)) then
         throw (ReferenceError
                  ("Attribute " +:+ quoted (toPropertyKey attrName)
                   +:+ " corresponds to public property " +:+ propName +:+ " from "
                   +:+ vmToString v +:+ ". Instead use `this." +:+ propName
                   +:+ "`. Only use `getAttribute()` to access global HTML attributes."))
       else
         match GlobalHTMLProperties !! propName with
         | Some g =>
             if truthyString (attribute g) then
               if truthyString (error g) then
                 consoleWrite LevelError (templateString (error g))
               else if experimental g then
                 consoleWrite LevelError
                   ("Attribute `" +:+ toPropertyKey attrName
                    +:+ "` is an experimental attribute that is not standardized or supported by all browsers. Property "
                    +:+ quoted propName +:+ " and attribute " +:+ quoted (toPropertyKey attrName)
                    +:+ " are ignored.")
               else ret tt
             else ret tt
         | None => ret tt
         end) >>
    let raw := rawAttribute attrs (toPropertyKey attrName) in
    ret (toAttributeValue raw).

(** [get root]. *)
Definition get_root : M value :=
  let! st := current in
  assert_vm (vm st) >>
  if isUndefined (cmpRoot (vm st)) then
    let! cmpRoot := allocate (mkObject ExoticObject ∅) in     (* new Root(vm) *)
    modify (λ st, with_vm (vm_with_cmpRoot cmpRoot (vm st)) st) >>
    ret cmpRoot
  else ret (cmpRoot (vm st)).

(** The [for] loop of [querySelector]: [i] is the index, [steps] the number of
    iterations left before [i] reaches [len]. *)
Fixpoint querySelector_for (v : VM) (nodeList : list Node) (i steps : nat) : option value :=
  match steps with
  | O => None
  | S steps' =>
      match nodeList !! i with
      | Some n =>
          if wasNodePassedIntoVM v n then Some (pierce v (VDom n))
          else querySelector_for v nodeList (S i) steps'
      | None => None
      end
  end.

Definition querySelector (selectors : string) : M value :=
  let! st := current in
  let v := vm st in
  assert_isFalse (isBeingConstructed st v)
    ("this.querySelector() cannot be called during the construction of the custom element for "
     +:+ toString v +:+ " because no children has been added to this element yet.") >>
  let! nodeList := querySelectorAllFromComponent selectors in
  match querySelector_for v nodeList 0 (length nodeList) with
  | Some found => ret found
  | None =>
      assert_block
        (let! root := get_root in
         when (truthy (shadowRootQuerySelector root selectors))
           (assert_logWarning
              ("this.querySelector() can only return elements that were passed into "
               +:+ toString v
               +:+ " via slots. It seems that you are looking for elements from your template declaration, in which case you should use this.root.querySelector() instead."))) >>
      ret VNull
  end.

Definition querySelectorAll (selectors : string) : M value :=
  let! st := current in
  let v := vm st in
  assert_isFalse (isBeingConstructed st v)
    ("this.querySelectorAll() cannot be called during the construction of the custom element for "
     +:+ toString v +:+ " because no children has been added to this element yet.") >>
  let! nodeList := querySelectorAllFromComponent selectors in
  let filteredNodes := filter (λ node, wasNodePassedIntoVM v node = true) nodeList in
  assert_block
    (if bool_decide (length filteredNodes = 0%nat) then
       let! root := get_root in
       when (negb (bool_decide (length (shadowRootQuerySelectorAll root selectors) = 0%nat)))
         (assert_logWarning
            ("this.querySelectorAll() can only return elements that were passed into "
             +:+ toString v
             +:+ " via slots. It seems that you are looking for elements from your template declaration, in which case you should use this.root.querySelectorAll() instead."))
     else ret tt) >>
  let! st := current in
  ret (pierce (vm st) (VDomList filteredNodes)).

(** [set tabIndex].  The [toString] of the message is the global function,
    called without a receiver, whatever [value] is; the host element keeps
    [tabIndex] as a 32-bit [long]. *)
Definition set_tabIndex (value : Z) : M unit :=
  let! st := current in
  let v := vm st in
  assert_vm v >>
  assert_isFalse (isRendering st)
    ("Setting property " +:+ quoted "tabIndex" +:+ " of " +:+ "[object Undefined]"
     +:+ " during the rendering process of "
     +:+ contextToString (vmBeingRendered st)
     +:+ " is invalid. The render phase must have no side effects on the state of any component.") >>
  if isBeingConstructed st v then
    assert_fail ("Setting property " +:+ quoted "tabIndex"
                 +:+ " during the construction process of " +:+ vmToString v +:+ " is invalid.")
  else
    modify (λ st, with_vm (vm_with_tabIndex (toInt32 value) (vm st)) st).

(** [get classList]. *)
Definition get_classList : M value :=
  let! st := current in
  assert_vm (vm st) >>
  if isUndefined (classListObj (vm st)) then
    let! classes := allocate emptyObject in                        (* vm.cmpClasses = {} *)
    modify (λ st, with_vm (vm_with_cmpClasses classes (vm st)) st) >>
    let! classListObj := allocate (mkObject ExoticObject ∅) in    (* new ClassList(vm) *)
    modify (λ st, with_vm (vm_with_classListObj classListObj (vm st)) st) >>
    ret classListObj
  else ret (classListObj (vm st)).

(** [get state]. *)
Definition get_state : M value :=
  let! st := current in
  assert_vm (vm st) >>
  if isUndefined (cmpState (vm st)) then
    let! o := create_null in
    let cmpState := getReactiveProxy o in
    modify (λ st, with_vm (vm_with_cmpState cmpState (vm st)) st) >>
    ret cmpState
  else ret (cmpState (vm st)).

(** [set state]. *)
Definition set_state (newState : value) : M unit :=
  let! st := current in
  let v := vm st in
  assert_vm v >>
  if isArray (heap st) newState || negb (isObservable (heap st) newState) then
    assert_fail (stateFailMessage v newState)
  else
    modify (λ st, with_vm (vm_with_cmpState (getReactiveProxy newState) (vm st)) st).

Definition get_tagName : M value :=
  let! e := getLinkedElement in ret (VStr (elm_tagName e +:+ EmptyString)).

Definition get_tabIndex : M value :=
  let! e := getLinkedElement in ret (VNum (elm_tabIndex e)).

(** *** Global HTML attributes *)

(** The lines pushed on [msg] by the accessor of a disabled global property. *)
Definition globalHTMLPropertyMessage (v : VM) (propName : string) (g : GlobalHTMLProperty)
  : list string :=
  ["Accessing the global HTML property " +:+ quoted propName +:+ " in " +:+ vmToString v
   +:+ " is disabled."]
  ++ (if truthyString (error g) then [templateString (error g)]
      else
        (if experimental g then
           ["This is an experimental property that is not standardized or supported by all browsers. Property "
            +:+ quoted propName +:+ " and attribute " +:+ quoted (templateString (attribute g))
            +:+ " are ignored."]
         else [])
        ++ (if readOnly g then ["Property is read-only."] else [])
        ++ (if truthyString (attribute g) then
              [dquote +:+ "Instead access it via the reflective attribute "
               +:+ quoted (templateString (attribute g)) +:+ " with one of these techniques:";
               "  * Use `this.getAttribute(" +:+ quoted (templateString (attribute g))
               +:+ ")` to access the attribute value. This option is best suited for accessing the value in a getter during the rendering process.";
               "  * Declare `static observedAttributes = [" +:+ quoted (templateString (attribute g))
               +:+ "]` and use `attributeChangedCallback(attrName, oldValue, newValue)` to get a notification each time the attribute changes. This option is best suited for reactive programming, eg. fetching new data each time the attribute is updated."]
            else [])).

(** The getter installed for the global property [propName]. *)
Definition globalHTMLPropertyGetter (propName : string) : M value :=
  let! st := current in
  let v := vm st in
  assert_vm v >>
  match GlobalHTMLProperties !! propName with
  | Some g =>
      consoleWrite LevelLog (join newline (globalHTMLPropertyMessage v propName g)) >>
      ret VUndefined      (* explicit undefined *)
  | None => throw (TypeError "Cannot destructure an undefined table entry")
  end.

(** A member of the prototype: a method, or an accessor with its getter and
    its [enumerable] flag. *)
Inductive Member :=
  | Method
  | AccessorProperty (getter : M value) (isEnumerable : bool).

(** The members written in the object literal of [ComponentElement.prototype]. *)
Definition ComponentElement_prototype : gmap string Member :=
  list_to_map
    [("renderedCallback", Method); ("render", Method);
     ("connectedCallback", Method); ("disconnectedCallback", Method);
     ("dispatchEvent", Method); ("addEventListener", Method);
     ("removeEventListener", Method); ("getAttribute", Method);
     ("getBoundingClientRect", Method); ("querySelector", Method);
     ("querySelectorAll", Method);
     ("tagName", AccessorProperty get_tagName true);
     ("tabIndex", AccessorProperty get_tabIndex true);
     ("classList", AccessorProperty get_classList true);
     ("root", AccessorProperty get_root true);
     ("state", AccessorProperty get_state true);
     ("toString", Method)].

(** [propName in proto]. *)
Definition inPrototype (proto : gmap string Member) (propName : string) : bool :=
  bool_decide (is_Some (proto !! propName)) || bool_decide (propName ∈ ObjectPrototypeNames).

Definition getOwnPropertyNames {A} (table : gmap string A) : list string :=
  fst <$> map_to_list table.

(** One step of the [forEach] over the names of the table. *)
Definition defineGlobalHTMLProperty (proto : gmap string Member) (propName : string)
  : gmap string Member :=
  if inPrototype proto propName then proto      (* already exposed *)
  else <[propName := AccessorProperty (globalHTMLPropertyGetter propName) false]> proto.

(** The prototype once the development-mode block has run. *)
Definition ComponentElement_prototype_sealed : gmap string Member :=
  foldl defineGlobalHTMLProperty ComponentElement_prototype
        (getOwnPropertyNames GlobalHTMLProperties).

(** Reading the member [propName] of a component. *)
Definition readProperty (propName : string) : M value :=
  match ComponentElement_prototype_sealed !! propName with
  | Some (AccessorProperty getter _) => getter
  | Some Method => ret (VMethod propName)
  | None =>
      if bool_decide (propName ∈ ObjectPrototypeNames) then ret (VMethod propName)
      else ret VUndefined
  end.

End HtmlElement.

(** ** Events and geometry *)

Record Event := mkEvent { event_type : string }.

Record DOMRect := mkRect { rect_x : Z; rect_y : Z; rect_width : Z; rect_height : Z }.

(** The native operations of the host element that the component forwards to.
    Dispatching runs whatever the listeners of the element do, so it is a
    computation on the world. *)
Class HostElement := {
  elm_dispatchEvent : Elm -> Event -> M bool;
  elm_getBoundingClientRect : Elm -> DOMRect
}.

Section HostMethods.
Context `{env : Collaborators} `{host : HostElement}.

(** [dispatchEvent]. *)
Definition dispatchEvent (event : Event) : M bool :=
  let! elm := getLinkedElement in
  assert_block
    (let! st := current in
     let v := vm st in
     assert_isFalse (isBeingConstructed st v)
       ("this.dispatchEvent() should not be called during the construction of the custom element for "
        +:+ toString v +:+ " because no one is listening for the event "
        +:+ quoted (event_type event) +:+ " just yet.") >>
     when (bool_decide (idx v = 0%nat))
       (assert_logWarning
          ("Unreachable event " +:+ quoted (event_type event)
           +:+ " dispatched from disconnected element " +:+ toString v
           +:+ ". Events can only reach the parent element after the element is connected(via connectedCallback) and before the element is disconnected(via disconnectedCallback)."))) >>
  elm_dispatchEvent elm event.

(** [getBoundingClientRect]. *)
Definition getBoundingClientRect : M DOMRect :=
  let! elm := getLinkedElement in
  let! st := current in
  assert_isFalse (isBeingConstructed st (vm st))
    ("this.getBoundingClientRect() should not be called during the construction of the custom element for "
     +:+ toString (vm st)
     +:+ " because the element is not yet in the DOM, instead, you can use it in one of the available life-cycle hooks.") >>
  ret (elm_getBoundingClientRect elm).

End HostMethods.

(** ** Sequences of calls *)

(** What the code of a component can do to itself through the members above,
    for properties declared without accessors of their own. *)
Inductive Operation :=
  | ReadPublic (propName : string)
  | WritePublic (propName : string) (v : value)
  | ReadWired (propName : string)
  | WriteWired (propName : string) (v : value)
  | ReadState
  | WriteState (v : value)
  | ReadRoot
  | ReadClassList
  | WriteTabIndex (z : Z)
  | CallGetAttribute (args : list value)
  | CallQuerySelector (selectors : string)
  | CallQuerySelectorAll (selectors : string)
  | ReadMember (propName : string).

Section Operations.
Context `{env : Collaborators}.

(** The world after one operation, whether it returned or threw. *)
Definition perform (op : Operation) (st : State) : State :=
  match op with
  | ReadPublic p => snd (get (createPublicPropertyDescriptor p None) st)
  | WritePublic p v => snd (set (createPublicPropertyDescriptor p None) v st)
  | ReadWired p => snd (get (createWiredPropertyDescriptor p) st)
  | WriteWired p v => snd (set (createWiredPropertyDescriptor p) v st)
  | ReadState => snd (get_state st)
  | WriteState v => snd (set_state v st)
  | ReadRoot => snd (get_root st)
  | ReadClassList => snd (get_classList st)
  | WriteTabIndex z => snd (set_tabIndex z st)
  | CallGetAttribute args => snd (getAttribute args st)
  | CallQuerySelector selectors => snd (querySelector selectors st)
  | CallQuerySelectorAll selectors => snd (querySelectorAll selectors st)
  | ReadMember p => snd (readProperty p st)
  end.

Definition performAll (ops : list Operation) (st : State) : State :=
  foldl (λ s op, perform op s) st ops.

End Operations.

(** [vm.cmpWired] and [vm.cmpState] are either not created yet or wrappers. *)
Definition isWrapperOrUndefined (v : value) : bool :=
  match v with
  | VUndefined | VProxy _ => true
  | _ => false
  end.

Definition storesWrapped (st : State) : Prop :=
  isWrapperOrUndefined (cmpWired (vm st)) = true
  ∧ isWrapperOrUndefined (cmpState (vm st)) = true.

(** What a call keeps from the world [st] in the world [st'] after it: the
    identity of the view-model and of its public-props record, the shape of
    its reactive stores, and every object allocated so far, with its kind. *)
Definition preserved (st st' : State) : Prop :=
  uid (vm st') = uid (vm st)
  ∧ cmpProps (vm st') = cmpProps (vm st)
  ∧ (storesWrapped st → storesWrapped st')
  ∧ (∀ l, is_Some (heap st !! l) →
          is_Some (heap st' !! l)
          ∧ obj_kind (lookupObject (heap st') l) = obj_kind (lookupObject (heap st) l)).

(** A computation that keeps all this, however it ends. *)
Definition keeps {A} (m : M A) : Prop := ∀ st, preserved st (snd (m st)).

(** The lazily created objects that the view-model has in [st] are the ones
    it has in [st']: [classList] and [root], and [state] too when
    [withState] is set. *)
Definition lazyObjectsKept (withState : bool) (st st' : State) : Prop :=
  (withState = true → cmpState (vm st) ≠ VUndefined →
   cmpState (vm st') = cmpState (vm st))
  ∧ (classListObj (vm st) ≠ VUndefined → classListObj (vm st') = classListObj (vm st))
  ∧ (cmpRoot (vm st) ≠ VUndefined → cmpRoot (vm st') = cmpRoot (vm st)).

Definition keepsLazyObjects (withState : bool) {A} (m : M A) : Prop :=
  ∀ st, lazyObjectsKept withState st (snd (m st)).

Definition assignsState (op : Operation) : bool :=
  match op with
  | WriteState _ => true
  | _ => false
  end.

(** ** A concrete world, for the examples *)

(** [tab-index] ↦ [tabIndex]: a dash followed by a lower-case letter becomes
    that letter in upper case. *)
Fixpoint camelCase (s : string) : string :=
  match s with
  | EmptyString => EmptyString
  | String c rest =>
      match rest with
      | String d rest' =>
          if bool_decide (c = ascii_of_nat 45) && (97 <=? nat_of_ascii d)
             && (nat_of_ascii d <=? 122)
          then String (ascii_of_nat (nat_of_ascii d - 32)) (camelCase rest')
          else String c (camelCase rest)
      | EmptyString => String c EmptyString
      end
  end.

Definition demoCollaborators : Collaborators :=
  {| vmToString := λ v, "[object:vm " +:+ sel (vnode v) +:+ "]";
     contextToString := λ c, match c with Some _ => "[object:vm]" | None => "null" end;
     valueToString := λ v, match v with VStr s => s | _ => "[object Object]" end;
     getPropNameFromAttrName := camelCase;
     toAttributeValue := λ raw, match raw with
                                | VBool true => VStr EmptyString
                                | VBool false => VNull
                                | _ => raw
                                end;
     GlobalHTMLProperties :=
       {[ "title" := mkGlobal (Some "title") false false None;
          "accessKey" := mkGlobal (Some "accesskey") false false None;
          "tabIndex" := mkGlobal (Some "tabindex") false false None;
          "isContentEditable" := mkGlobal None true false None ]};
     elm_querySelectorAll := λ e selectors,
       if bool_decide (selectors = "p")
       then [mkNode 10 1; mkNode 11 0; mkNode 12 0] else [];
     wasNodePassedIntoVM := λ v n, bool_decide (node_owner n ≠ uid v);
     pierce := λ v x, x;
     shadowRootQuerySelector := λ root selectors, VNull;
     shadowRootQuerySelectorAll := λ root selectors, [] |}.

Definition demoHost : HostElement :=
  {| elm_dispatchEvent := λ e event, ret true;
     elm_getBoundingClientRect := λ e, mkRect 0 0 100 20 |}.

(** The object store of the examples: the public-props record at 0, the
    object [{a: 1}] at 1, an array at 2, a wired store at 3. *)
Definition demoHeap : gmap loc JSObject :=
  {[ 0%nat := emptyObject;
     1%nat := mkObject PlainObject {[ "a" := VNum 1%Z ]};
     2%nat := mkObject ArrayObject ∅;
     3%nat := emptyObject ]}.

Definition demoVM : VM :=
  {| uid := 1; idx := 1;
     vnode := mkVNode "x-foo" (Some {[ "title" := VStr "hello" ]}) (mkElm 0 "X-FOO" 0%Z);
     def_props := {[ "label" := VNum 1%Z ]};
     cmpProps := 0;
     cmpWired := VUndefined; cmpState := VUndefined; cmpClasses := VUndefined;
     classListObj := VUndefined; cmpRoot := VUndefined |}.

(** The view-model of the examples inside its constructor. *)
Definition demoConstructing : State :=
  {| heap := demoHeap; vm := demoVM;
     isRendering := false; vmBeingRendered := None; vmBeingConstructed := Some 1%nat;
     listeners := []; scheduled := []; console := [] |}.

(** The same view-model once constructed, outside a render pass. *)
Definition demoIdle : State := endConstruction demoConstructing.

(** The same view-model being rendered. *)
Definition demoRendering : State := with_rendering true (Some 1%nat) demoIdle.

(** The same, with the object at 3 as its state. *)
Definition demoRenderingWithState : State :=
  with_vm (vm_with_cmpState (VProxy 3) demoVM) demoRendering.

(** Constructed, with a wired store at 3 that context 5 subscribed to. *)
Definition demoWired : State :=
  with_vm (vm_with_cmpWired (VProxy 3) demoVM)
    (with_listeners [(3%nat, "data", 5%nat)] demoIdle).

(** Being rendered, with 7 stored as the public property [label]. *)
Definition demoRenderingStored : State :=
  with_heap (writeField demoHeap 0 "label" (VNum 7)) demoRendering.

(** An author-defined setter that keeps nothing: [set label(v) {}]. *)
Definition discardingSetter : OriginalDescriptor :=
  mkOriginal None (Some (λ _, ret tt)).

(** Under construction while another context renders. *)
Definition demoConstructingWhileRendering : State :=
  with_rendering true (Some 2%nat)
    (with_heap (writeField demoHeap 0 "label" (VNum 7)) demoConstructing).

(** ** Properties of the accessors *)

Section Theorems.
Context `{env : Collaborators}.

#[local] Arguments js_get : simpl never.
#[local] Arguments js_set : simpl never.
#[local] Arguments subscribeToSetHook : simpl never.
#[local] Arguments notifyListeners : simpl never.

Ltac run :=
  unfold bind, ret, current, modify, when, throw, assert_vm, assert_logError,
    assert_logWarning, assert_fail, assert_block, assert_isFalse, consoleWrite; simpl.

Lemma phase_constructing st :
  phase st = Constructing ↔ isBeingConstructed st (vm st) = true.
Proof.
  unfold phase. destruct (isBeingConstructed st (vm st)); [done|].
  split; [|done]. by destruct (_ && _).
Qed.

Lemma phase_not_constructing st :
  phase st ≠ Constructing ↔ isBeingConstructed st (vm st) = false.
Proof.
  rewrite phase_constructing. by destruct (isBeingConstructed st (vm st)).
Qed.

Lemma isBeingConstructed_endConstruction st v :
  isBeingConstructed (endConstruction st) v = false.
Proof. reflexivity. Qed.

(** C7.  While the view-model is under construction, reading a declared public
    property reports a usage error and returns [undefined], whether or not the
    author defined a getter; nothing but the console changes. *)
Theorem public_read_during_construction propName original st :
  phase st = Constructing →
  get (createPublicPropertyDescriptor propName original) st
  = (Normal VUndefined,
     with_console (console st ++ [(LevelError, constructorReadMessage (vm st) propName)]) st).
Proof.
  intros Hc%phase_constructing. simpl. unfold publicGetter. run.
  by rewrite Hc.
Qed.

(** *** The object store *)

Lemma readField_writeField h l key v :
  readField (writeField h l key v) l key = v.
Proof.
  unfold readField, writeField, lookupObject.
  rewrite lookup_insert_eq. simpl. by rewrite lookup_insert_eq.
Qed.

Lemma readField_writeField_other h l key v l' key' :
  (l, key) ≠ (l', key') →
  readField (writeField h l key v) l' key' = readField h l' key'.
Proof.
  intros Hne. unfold readField, writeField, lookupObject.
  destruct (decide (l = l')) as [->|Hl].
  - rewrite lookup_insert_eq. simpl. rewrite lookup_insert_ne; [done|congruence].
  - by rewrite lookup_insert_ne.
Qed.

Lemma kind_writeField h l key v l' :
  obj_kind (lookupObject (writeField h l key v) l') = obj_kind (lookupObject h l').
Proof.
  unfold writeField, lookupObject.
  destruct (decide (l = l')) as [->|Hl].
  - by rewrite lookup_insert_eq.
  - by rewrite lookup_insert_ne.
Qed.

Lemma kindOf_writeField h l key v x :
  kindOf (writeField h l key v) x = kindOf h x.
Proof. destruct x; simpl; try done; by rewrite kind_writeField. Qed.

Lemma isObservable_writeField h l key v x :
  isObservable (writeField h l key v) x = isObservable h x.
Proof. unfold isObservable. by rewrite kindOf_writeField. Qed.

Lemma fresh_not_allocated (h : gmap loc JSObject) : h !! fresh (dom h) = None.
Proof. apply not_elem_of_dom, is_fresh. Qed.

Lemma isObservable_idempotent h x :
  isObservable h (getReactiveProxy x) = isObservable h x.
Proof. by destruct x. Qed.

Lemma wrapIfObservable_idempotent h x :
  wrapIfObservable h (wrapIfObservable h x) = wrapIfObservable h x.
Proof.
  unfold wrapIfObservable. destruct (isObservable h x) eqn:Hx.
  - rewrite isObservable_idempotent, Hx. by destruct x.
  - by rewrite Hx.
Qed.

(** *** Single steps *)

Lemma with_listeners_same st : with_listeners (listeners st) st = st.
Proof. by destruct st. Qed.

Lemma js_get_ref l key st :
  js_get (VRef l) key st = (Normal (readField (heap st) l key), st).
Proof. reflexivity. Qed.

Lemma js_set_ref l key v st :
  js_set (VRef l) key v st = (Normal tt, with_heap (writeField (heap st) l key v) st).
Proof. reflexivity. Qed.

Lemma subscribe_rendering c l key st :
  isRendering st = true →
  subscribeToSetHook (Some c) (VRef l) key st
  = (Normal tt, with_listeners (addListener (listeners st) l key c) st).
Proof. intros Hr. unfold subscribeToSetHook. by rewrite Hr. Qed.

Lemma subscribe_result ctx target key st :
  ∃ ls, subscribeToSetHook ctx target key st = (Normal tt, with_listeners ls st).
Proof.
  unfold subscribeToSetHook.
  destruct (isRendering st), ctx, (obsId target); eauto;
    exists (listeners st); by rewrite with_listeners_same.
Qed.

(** The default getter of a public property, outside construction. *)
Lemma publicGetter_default propName st :
  isBeingConstructed st (vm st) = false →
  ∃ ls, publicGetter propName None st
        = (Normal (readField (heap st) (cmpProps (vm st)) propName), with_listeners ls st)
      ∧ (isRendering st = false → ls = listeners st)
      ∧ (∀ c, isRendering st = true → vmBeingRendered st = Some c →
              ls = addListener (listeners st) (cmpProps (vm st)) propName c).
Proof.
  intros Hc. unfold publicGetter. run. rewrite Hc.
  destruct (isRendering st) eqn:Hr; simpl.
  - destruct (vmBeingRendered st) as [c|] eqn:Hv.
    + rewrite subscribe_rendering by done. simpl. eexists. split; [reflexivity|].
      split; [done|]. by intros c' _ [= <-].
    + unfold subscribeToSetHook. rewrite Hr. simpl. exists (listeners st).
      rewrite with_listeners_same. by repeat split.
  - exists (listeners st). rewrite with_listeners_same. by repeat split.
Qed.

(** The default setter of a public property, during construction. *)
Lemma publicSetter_default propName value st :
  isBeingConstructed st (vm st) = true →
  ∃ log, publicSetter propName None value st
         = (Normal tt,
            with_heap (writeField (heap st) (cmpProps (vm st)) propName
                                  (wrapIfObservable (heap st) value))
                      (with_console log st)).
Proof.
  intros Hc. unfold publicSetter. run. rewrite Hc. simpl.
  destruct (negb (isObservable (heap st) value) && isObject value); simpl;
    rewrite js_set_ref; simpl; by eexists.
Qed.

(** *** The watcher *)

Lemma with_scheduled_nil st : with_scheduled (scheduled st ++ []) st = st.
Proof. destruct st. unfold with_scheduled. simpl. by rewrite app_nil_r. Qed.

Lemma elem_of_subscribers ls l key c :
  c ∈ subscribers ls l key ↔ (l, key, c) ∈ ls.
Proof.
  unfold subscribers. rewrite list_elem_of_fmap. split.
  - intros ([[l' key'] c'] & -> & [Heq Hin]%list_elem_of_filter).
    simpl in Heq. by injection Heq as -> ->.
  - intros Hin. exists (l, key, c). split; [done|].
    apply list_elem_of_filter. by split.
Qed.

Lemma elem_of_addListener ls l key c : (l, key, c) ∈ addListener ls l key c.
Proof.
  unfold addListener. case_bool_decide; [done|].
  apply elem_of_app. right. by apply list_elem_of_singleton.
Qed.

Lemma elem_of_addListener_iff ls l key c e :
  e ∈ addListener ls l key c ↔ e ∈ ls ∨ e = (l, key, c).
Proof.
  unfold addListener. case_bool_decide as Hin.
  - split; [by left|]. by intros [?| ->].
  - rewrite elem_of_app, list_elem_of_singleton. done.
Qed.

Lemma scheduleRehydration_step c st :
  scheduleRehydration c st
  = (Normal tt, if bool_decide (c ∈ scheduled st) then st
                else with_scheduled (scheduled st ++ [c]) st).
Proof. reflexivity. Qed.

(** Scheduling a list of contexts appends, once each, those that were not
    pending. *)
Lemma forEach_schedule cs st :
  ∃ new, forEach scheduleRehydration cs st
         = (Normal tt, with_scheduled (scheduled st ++ new) st)
       ∧ NoDup new
       ∧ (∀ c, c ∈ new ↔ c ∈ cs ∧ c ∉ scheduled st).
Proof.
  revert st. induction cs as [|c cs IH]; intros st.
  - exists []. simpl. unfold ret. rewrite with_scheduled_nil.
    split; [done|]. split; [constructor|].
    intros c. split; [by intros ?%not_elem_of_nil|]. by intros [?%not_elem_of_nil _].
  - simpl. unfold bind. rewrite scheduleRehydration_step.
    case_bool_decide as Hin.
    + destruct (IH st) as (new & -> & Hnd & Hnew). exists new.
      split; [done|]. split; [done|]. intros c'. rewrite Hnew, elem_of_cons.
      split; [tauto|]. intros [[-> | ?] ?]; [done|tauto].
    + destruct (IH (with_scheduled (scheduled st ++ [c]) st)) as (new & -> & Hnd & Hnew).
      exists (c :: new). simpl in *. split.
      { unfold with_scheduled. simpl. by rewrite <- app_assoc. }
      split.
      { apply NoDup_cons. split; [|done]. rewrite Hnew, elem_of_app.
        intros [_ Hc]. apply Hc. right. by apply list_elem_of_singleton. }
      intros c'. rewrite !elem_of_cons, Hnew, elem_of_app, list_elem_of_singleton.
      split.
      * intros [-> | [? ?]]; [by split; [left|]|]. split; [by right|]. tauto.
      * intros [[-> | ?] ?]; [by left|]. destruct (decide (c' = c)) as [->|]; [by left|].
        right. split; [done|]. tauto.
Qed.

(** A notification schedules exactly the contexts subscribed to the pair that
    were not pending already. *)
Lemma notify_schedules_subscribers target l key st :
  obsId target = Some l →
  ∃ new, notifyListeners target key st
         = (Normal tt, with_scheduled (scheduled st ++ new) st)
       ∧ NoDup new
       ∧ (∀ c, c ∈ new ↔ (l, key, c) ∈ listeners st ∧ c ∉ scheduled st).
Proof.
  intros Hid. unfold notifyListeners. rewrite Hid.
  destruct (forEach_schedule (subscribers (listeners st) l key) st) as (new & -> & Hnd & Hnew).
  exists new. split; [done|]. split; [done|].
  intros c. by rewrite Hnew, elem_of_subscribers.
Qed.

Lemma count_NoDup_elem (c : nat) (l : list nat) :
  NoDup l → c ∈ l → length (filter (λ x, x = c) l) = 1%nat.
Proof.
  induction 1 as [|x l Hx Hnd IH]; [by intros ?%not_elem_of_nil|].
  intros [-> | Hin]%elem_of_cons.
  - rewrite filter_cons_True by done. simpl. f_equal.
    apply length_zero_iff_nil. apply list_eq. intros i. rewrite lookup_nil.
    apply eq_None_not_Some. intros [y Hy]. apply list_elem_of_lookup_2 in Hy.
    apply list_elem_of_filter in Hy as [-> ?]. done.
  - rewrite filter_cons_False; [by apply IH|]. by intros ->.
Qed.

Lemma NoDup_only_elem (c : nat) (l : list nat) :
  NoDup l → (∀ x, x ∈ l ↔ x = c) → l = [c].
Proof.
  intros Hnd Hl. destruct l as [|x l].
  { exfalso. eapply not_elem_of_nil, (proj2 (Hl c) eq_refl). }
  assert (x = c) as -> by (apply Hl; left).
  apply NoDup_cons in Hnd as [Hx _]. destruct l as [|y l]; [done|].
  assert (y = c) as -> by (apply Hl; right; left).
  exfalso. apply Hx. left.
Qed.

Lemma count_not_elem (c : nat) (l : list nat) :
  c ∉ l → filter (λ x, x = c) l = [].
Proof.
  intros Hnot. induction l as [|x l IH]; [done|].
  apply not_elem_of_cons in Hnot as [Hne Hnot].
  rewrite filter_cons_False by congruence. by apply IH.
Qed.

(** *** Public properties *)

(** C1, as amended.  For a public property without author-defined accessors,
    a write made while the view-model is under construction stores the value
    (wrapped when observable) in the public-props record, and a read made once
    construction is over returns it.  For every public property, a write made
    outside construction is answered with a logged error and changes nothing
    but the console. *)
Theorem public_write_only_during_construction propName original value st :
  let d := createPublicPropertyDescriptor propName original in
  (phase st = Constructing →
   original ≫= orig_get = None → original ≫= orig_set = None →
   fst (set d value st) = Normal tt
   ∧ readField (heap (snd (set d value st))) (cmpProps (vm st)) propName
     = wrapIfObservable (heap st) value
   ∧ fst (get d (endConstruction (snd (set d value st))))
     = Normal (wrapIfObservable (heap st) value))
  ∧ (phase st ≠ Constructing →
     set d value st
     = (Normal tt,
        with_console (console st ++ [(LevelError, lateWriteMessage (vm st) propName)]) st)).
Proof.
  simpl. split.
  - intros Hc%phase_constructing Hg Hs. rewrite Hg, Hs.
    destruct (publicSetter_default propName value st Hc) as [log ->]. simpl.
    split; [done|]. split; [apply readField_writeField|].
    edestruct (publicGetter_default propName) as (ls & -> & _); [reflexivity|].
    simpl. by rewrite readField_writeField.
  - intros Hc%phase_not_constructing. unfold publicSetter. run. by rewrite Hc.
Qed.
(** C6, as amended.  For a public property without an author-defined getter,
    on a view-model that is not under construction: a read returns the stored
    value; outside an active render it changes nothing; during an active
    render it first subscribes the rendering context to the pair (public-props
    record, property name), after which a notification on that pair schedules
    exactly the contexts subscribed to it that are not pending: the rendering
    context alone, when no other context had subscribed to the pair. *)
Theorem public_read_subscribes propName original st :
  let d := createPublicPropertyDescriptor propName original in
  let store := cmpProps (vm st) in
  phase st ≠ Constructing → original ≫= orig_get = None →
  fst (get d st) = Normal (readField (heap st) store propName)
  ∧ (isRendering st = false → snd (get d st) = st)
  ∧ (∀ c, isRendering st = true → vmBeingRendered st = Some c →
       snd (get d st) = with_listeners (addListener (listeners st) store propName c) st
       ∧ (store, propName, c) ∈ listeners (snd (get d st))
       ∧ ∀ st2, listeners st2 = listeners (snd (get d st)) →
           ∃ new, notifyListeners (VRef store) propName st2
                  = (Normal tt, with_scheduled (scheduled st2 ++ new) st2)
                ∧ NoDup new
                ∧ (∀ c', c' ∈ new ↔
                     ((store, propName, c') ∈ listeners st ∨ c' = c) ∧ c' ∉ scheduled st2)
                ∧ ((∀ c', (store, propName, c') ∈ listeners st → c' = c) →
                   c ∉ scheduled st2 → new = [c])).
Proof.
  simpl. intros Hc%phase_not_constructing ->.
  destruct (publicGetter_default propName st Hc) as (ls & -> & Hidle & Hrender).
  simpl. split; [done|]. split.
  - intros Hr. rewrite Hidle by done. apply with_listeners_same.
  - intros c Hr Hv. rewrite (Hrender c Hr Hv). split; [done|].
    split; [apply elem_of_addListener|].
    intros st2 Hls.
    destruct (notify_schedules_subscribers (VRef (cmpProps (vm st)))
                (cmpProps (vm st)) propName st2 eq_refl) as (new & -> & Hnd & Hnew).
    assert (∀ c', c' ∈ new ↔
              ((cmpProps (vm st), propName, c') ∈ listeners st ∨ c' = c)
              ∧ c' ∉ scheduled st2) as Hexact.
    { intros c'. rewrite Hnew, Hls, elem_of_addListener_iff.
      split.
      + intros [[? | [= ->]] ?]; split; auto.
      + intros [[? | ->] ?]; split; auto. }
    exists new. split; [done|]. split; [done|]. split; [done|].
    intros Honly Hpending. apply NoDup_only_elem; [done|].
    intros c'. rewrite Hexact. split.
    + intros [[?%Honly | ?] _]; done.
    + intros ->. split; [by right|done].
Qed.

(** *** Wired properties and state *)

(** C5.  Assigning an array or a value that is not observable to a wired
    property, or to [state], raises an error, and the state of the world after
    the failed write is the state before it. *)
Theorem wired_and_state_reject_non_observable propName value st :
  isArray (heap st) value = true ∨ isObservable (heap st) value = false →
  set (createWiredPropertyDescriptor propName) value st
  = (Throw (Error (wiredFailMessage (vm st) propName)), st)
  ∧ set_state value st = (Throw (Error (stateFailMessage (vm st) value)), st).
Proof.
  intros Hbad.
  assert (isArray (heap st) value || negb (isObservable (heap st) value) = true) as Hcond.
  { destruct Hbad as [-> | ->]; [done|]. by rewrite orb_true_r. }
  simpl. unfold wiredSetter, set_state. run. by rewrite Hcond.
Qed.

Lemma js_get_proxy l key st :
  ∃ ls, js_get (VProxy l) key st
        = (Normal (wrapIfObservable (heap st) (readField (heap st) l key)),
           with_listeners ls st).
Proof.
  unfold js_get. run.
  destruct (subscribe_result (vmBeingRendered st) (VProxy l) key st) as [ls ->].
  by exists ls.
Qed.

Lemma js_set_proxy l key v st :
  js_set (VProxy l) key v st
  = notifyListeners (VProxy l) key (with_heap (writeField (heap st) l key v) st).
Proof. reflexivity. Qed.

Lemma when_subscribe_result b ctx target key st :
  ∃ ls, when b (subscribeToSetHook ctx target key) st = (Normal tt, with_listeners ls st).
Proof.
  destruct b; simpl; [apply subscribe_result|].
  exists (listeners st). by rewrite with_listeners_same.
Qed.

(** Allocating an empty record does not change what any reference denotes. *)
Lemma lookupObject_allocate_empty (h : gmap loc JSObject) l :
  lookupObject (<[fresh (dom h) := emptyObject]> h) l = lookupObject h l.
Proof.
  unfold lookupObject. destruct (decide (fresh (dom h) = l)) as [<-|Hne].
  - by rewrite lookup_insert_eq, fresh_not_allocated.
  - by rewrite lookup_insert_ne.
Qed.

Lemma isObservable_same_objects h h' x :
  (∀ l, lookupObject h' l = lookupObject h l) → isObservable h' x = isObservable h x.
Proof. intros Heq. unfold isObservable. destruct x; simpl; try done; by rewrite Heq. Qed.

Lemma readField_same_objects h h' l key :
  (∀ l, lookupObject h' l = lookupObject h l) → readField h' l key = readField h l key.
Proof. intros Heq. unfold readField. by rewrite Heq. Qed.

(** The wired store after its lazy creation. *)
Lemma lazyCmpWired_result lo st :
  is_Some (heap st !! lo) →
  cmpWired (vm st) = VUndefined ∨ (∃ lw, cmpWired (vm st) = VProxy lw ∧ lw ≠ lo) →
  ∃ lw st_a, lazyCmpWired st = (Normal (VProxy lw), st_a)
    ∧ cmpWired (vm st_a) = VProxy lw ∧ lw ≠ lo
    ∧ (∀ l, lookupObject (heap st_a) l = lookupObject (heap st) l)
    ∧ listeners st_a = listeners st ∧ scheduled st_a = scheduled st
    ∧ (∀ lw', cmpWired (vm st) = VProxy lw' → lw' = lw).
Proof.
  intros Hlive [Hu | (lw & Hw & Hne)]; unfold lazyCmpWired; run; rewrite ?Hu, ?Hw; simpl.
  - unfold create_null, allocate. simpl.
    do 2 eexists. split; [reflexivity|]. simpl. split; [done|]. split.
    { intros Heq. rewrite <- Heq, fresh_not_allocated in Hlive. by destruct Hlive. }
    split; [apply lookupObject_allocate_empty|]. by repeat split.
  - exists lw, st. repeat split; try done. by intros lw' [= ->].
Qed.

Lemma lazyCmpWired_defined lw st :
  cmpWired (vm st) = VProxy lw → lazyCmpWired st = (Normal (VProxy lw), st).
Proof. intros Hw. unfold lazyCmpWired. run. by rewrite Hw. Qed.

(** The successful path of the wired setter, step by step: the store [lw],
    the write through the wrapper with the contexts [new] it schedules, and
    the explicit notification, which finds them pending. *)
Lemma wiredSetter_success propName value lo st :
  obsId value = Some lo →
  isObservable (heap st) value = true → isArray (heap st) value = false →
  is_Some (heap st !! lo) →
  cmpWired (vm st) = VUndefined ∨ (∃ lw, cmpWired (vm st) = VProxy lw ∧ lw ≠ lo) →
  ∃ lw st_a new,
    wiredSetter propName value st
    = (Normal tt,
       with_scheduled (scheduled st ++ new)
         (with_heap (writeField (heap st_a) lw propName (VProxy lo)) st_a))
    ∧ cmpWired (vm st_a) = VProxy lw ∧ lw ≠ lo
    ∧ (∀ l, lookupObject (heap st_a) l = lookupObject (heap st) l)
    ∧ (∀ lw', cmpWired (vm st) = VProxy lw' → lw' = lw)
    ∧ NoDup new
    ∧ (∀ c, c ∈ new ↔ (lw, propName, c) ∈ listeners st ∧ c ∉ scheduled st).
Proof.
  intros Hid Ho Ha Hlive Hstore.
  destruct (lazyCmpWired_result lo st Hlive Hstore)
    as (lw & st_a & Hlazy & Hw & Hne & Hobj & Hls & Hsch & Hsame).
  unfold wiredSetter. run. rewrite Ha, Ho. simpl. unfold bind. rewrite Hlazy.
  assert (getReactiveProxy value = VProxy lo) as ->.
  { destruct value; simpl in Hid; try done; by injection Hid as ->. }
  rewrite js_set_proxy.
  edestruct (notify_schedules_subscribers (VProxy lw) lw propName) as (new & -> & Hnd & Hnew);
    [done|].
  edestruct (notify_schedules_subscribers (VProxy lw) lw propName) as (new2 & -> & Hnd2 & Hnew2);
    [done|].
  simpl in *.
  assert (new2 = []) as ->.
  { destruct new2 as [|c ?]; [done|]. exfalso.
    destruct (Hnew2 c) as [[Hin Hnot] _]; [by left|].
    apply Hnot, elem_of_app. destruct (decide (c ∈ scheduled st_a)); [by left|].
    right. by apply Hnew. }
  exists lw, st_a, new. rewrite app_nil_r, <- Hsch.
  do 6 (split; [done|]).
  intros c. by rewrite Hnew, Hls.
Qed.

(** C4.  Assigning an observable object that is not an array to a wired
    property makes it readable back: the getter returns the wrapper of the
    assigned object, through which every field reads as the object has it
    (wrapped on demand); and a context subscribed to the pair (wired store,
    property name) that was not pending is scheduled exactly once by the
    write. *)
Theorem wired_round_trip propName value lo st :
  obsId value = Some lo →
  isObservable (heap st) value = true → isArray (heap st) value = false →
  is_Some (heap st !! lo) →
  cmpWired (vm st) = VUndefined ∨ (∃ lw, cmpWired (vm st) = VProxy lw ∧ lw ≠ lo) →
  let d := createWiredPropertyDescriptor propName in
  let st1 := snd (set d value st) in
  fst (set d value st) = Normal tt
  ∧ fst (get d st1) = Normal (VProxy lo)
  ∧ (∀ key, fst (js_get (VProxy lo) key (snd (get d st1)))
            = Normal (wrapIfObservable (heap st) (readField (heap st) lo key)))
  ∧ (∀ lw c, cmpWired (vm st) = VProxy lw →
             (lw, propName, c) ∈ listeners st → c ∉ scheduled st →
             ∃ new, scheduled st1 = scheduled st ++ new
                  ∧ length (filter (λ x, x = c) new) = 1%nat).
Proof.
  intros Hid Ho Ha Hlive Hstore. simpl.
  destruct (wiredSetter_success propName value lo st Hid Ho Ha Hlive Hstore)
    as (lw & st_a & new & -> & Hw & Hne & Hobj & Hsame & Hnd & Hnew).
  simpl. split; [done|].
  set (st1 := with_scheduled _ _).
  assert (∀ x, isObservable (heap st1) x = isObservable (heap st) x) as Hobs.
  { intros x. simpl. rewrite isObservable_writeField. by apply isObservable_same_objects. }
  assert (isObservable (heap st) (VProxy lo) = true) as Hlo.
  { destruct value; simpl in Hid; try done; by injection Hid as ->. }
  assert (∃ ls, wiredGetter propName st1 = (Normal (VProxy lo), with_listeners ls st1))
    as [ls Hget].
  { unfold wiredGetter, bind, current, assert_vm, ret.
    rewrite (lazyCmpWired_defined lw st1) by done.
    destruct (js_get_proxy lw propName st1) as [ls1 ->].
    edestruct when_subscribe_result as [ls2 ->].
    exists ls2. f_equal. unfold wrapIfObservable.
    replace (readField (heap st1) lw propName) with (VProxy lo)
      by (symmetry; apply readField_writeField).
    by rewrite Hobs, Hlo. }
  rewrite Hget. simpl. split; [done|]. split.
  - intros key. destruct (js_get_proxy lo key (with_listeners ls st1)) as [ls' ->].
    simpl. f_equal. unfold wrapIfObservable.
    rewrite readField_writeField_other by congruence.
    rewrite (readField_same_objects (heap st)) by done.
    by rewrite isObservable_writeField, (isObservable_same_objects (heap st)).
  - intros lw' c Hw' Hsub Hnot. apply Hsame in Hw' as ->.
    exists new. split; [done|].
    apply count_NoDup_elem; [done|]. by apply Hnew.
Qed.

(** [set state] does not consult the rendering flag. *)
Lemma set_state_ignores_rendering newState st :
  isArray (heap st) newState = false → isObservable (heap st) newState = true →
  set_state newState st
  = (Normal tt, with_vm (vm_with_cmpState (getReactiveProxy newState) (vm st)) st).
Proof. intros Ha Ho. unfold set_state. run. by rewrite Ha, Ho. Qed.

(** [set tabIndex] does: it fails while a render pass is active. *)
Lemma set_tabIndex_rejects_rendering z st :
  isRendering st = true →
  ∃ msg, set_tabIndex z st = (Throw (Error msg), st).
Proof. intros Hr. unfold set_tabIndex. run. rewrite Hr. simpl. by eexists. Qed.

(** *** Queries *)

Lemma get_root_normal st : ∃ r st', get_root st = (Normal r, st').
Proof.
  unfold get_root, allocate. run.
  destruct (isUndefined (cmpRoot (vm st))); by do 2 eexists.
Qed.

(** The loop of [querySelector] finds the first node of the list, from index
    [i] on, that was passed in. *)
Lemma querySelector_for_first v nodeList steps i :
  steps = (length nodeList - i)%nat →
  querySelector_for v nodeList i steps
  = (λ n, pierce v (VDom n))
      <$> head (filter (λ n, wasNodePassedIntoVM v n = true) (drop i nodeList)).
Proof.
  revert i. induction steps as [|steps IH]; intros i Hlen; simpl.
  - rewrite drop_ge by lia. done.
  - destruct (nodeList !! i) as [n|] eqn:Hn.
    + rewrite (drop_S _ _ _ Hn).
      destruct (wasNodePassedIntoVM v n) eqn:Hp.
      * by rewrite filter_cons_True.
      * rewrite filter_cons_False by congruence. apply IH. lia.
    + apply lookup_ge_None in Hn. lia.
Qed.

(** Inside the constructor both queries fail on their first assertion. *)
Lemma queries_fail_during_construction selectors st :
  phase st = Constructing →
  (∃ msg, querySelectorAll selectors st = (Throw (Error msg), st))
  ∧ (∃ msg, querySelector selectors st = (Throw (Error msg), st)).
Proof.
  intros Hc%phase_constructing.
  unfold querySelectorAll, querySelector. run. rewrite Hc. simpl.
  split; by eexists.
Qed.

(** C3.  Once construction is over (the component has been composed and
    rendered, so that its host has children), [querySelectorAll] returns,
    through [pierce], exactly the nodes matching the selector under the host
    that were passed in, and [querySelector] returns the first of them, or
    [null] when there is none. *)
Theorem queries_return_passed_in_nodes selectors st :
  phase st ≠ Constructing →
  let v := vm st in
  let matching := elm_querySelectorAll (elm (vnode v)) selectors in
  let passed := filter (λ n, wasNodePassedIntoVM v n = true) matching in
  fst (querySelectorAll selectors st)
  = Normal (pierce (vm (snd (querySelectorAll selectors st))) (VDomList passed))
  ∧ fst (querySelector selectors st)
    = Normal (match passed with n :: _ => pierce v (VDom n) | [] => VNull end)
  ∧ (∀ n, n ∈ passed ↔ n ∈ matching ∧ wasNodePassedIntoVM v n = true).
Proof.
  intros Hc%phase_not_constructing. simpl. split; [|split].
  - unfold querySelectorAll, querySelectorAllFromComponent, getLinkedElement. run.
    rewrite Hc. simpl. case_bool_decide; [|done].
    destruct (get_root_normal st) as (r & st' & ->).
    by destruct (negb _).
  - unfold querySelector, querySelectorAllFromComponent, getLinkedElement. run.
    rewrite Hc. simpl.
    rewrite querySelector_for_first by lia. rewrite drop_0.
    destruct (filter _ _) as [|n rest]; simpl; [|done].
    destruct (get_root_normal st) as (r & st' & ->).
    by destruct (truthy _).
  - intros n. rewrite list_elem_of_filter. tauto.
Qed.

(** *** getAttribute *)





(** *** Global HTML attributes *)

Lemma defineGlobalHTMLProperties_keeps names proto name m :
  proto !! name = Some m →
  foldl defineGlobalHTMLProperty proto names !! name = Some m.
Proof.
  revert proto. induction names as [|n names IH]; intros proto Hm; [done|].
  simpl. apply IH. unfold defineGlobalHTMLProperty.
  destruct (inPrototype proto n) eqn:Hin; [done|].
  rewrite lookup_insert_ne; [done|]. intros ->.
  unfold inPrototype in Hin. rewrite Hm in Hin.
  by rewrite bool_decide_eq_true_2 in Hin by eauto.
Qed.

Lemma inPrototype_keeps proto n name :
  inPrototype proto name = false → n ≠ name →
  inPrototype (defineGlobalHTMLProperty proto n) name = false.
Proof.
  intros Hin Hne. unfold defineGlobalHTMLProperty.
  destruct (inPrototype proto n); [done|].
  unfold inPrototype in *. by rewrite lookup_insert_ne.
Qed.

Lemma defineGlobalHTMLProperties_defines names proto name :
  name ∈ names → inPrototype proto name = false →
  foldl defineGlobalHTMLProperty proto names !! name
  = Some (AccessorProperty (globalHTMLPropertyGetter name) false).
Proof.
  revert proto. induction names as [|n names IH]; intros proto Hin Hfree.
  { by apply not_elem_of_nil in Hin. }
  simpl. destruct (decide (n = name)) as [->|Hne].
  - apply defineGlobalHTMLProperties_keeps.
    unfold defineGlobalHTMLProperty. rewrite Hfree. apply lookup_insert_eq.
  - apply elem_of_cons in Hin as [->|Hin]; [done|].
    apply IH; [done|]. by apply inPrototype_keeps.
Qed.

(** C9.  For every name of the global HTML attribute table that the prototype
    does not expose already, reading that property of a component returns
    [undefined], adds exactly one entry to the console log (the guidance
    text), changes nothing else, and does not throw. *)
Theorem disabled_global_property propName g st :
  GlobalHTMLProperties !! propName = Some g →
  inPrototype ComponentElement_prototype propName = false →
  readProperty propName st
  = (Normal VUndefined,
     with_console
       (console st ++ [(LevelLog, join newline (globalHTMLPropertyMessage (vm st) propName g))])
       st).
Proof.
  intros Hg Hfree. unfold readProperty, ComponentElement_prototype_sealed.
  assert (propName ∈ getOwnPropertyNames GlobalHTMLProperties) as Hin.
  { unfold getOwnPropertyNames. apply list_elem_of_fmap.
    exists (propName, g). split; [done|]. by apply elem_of_map_to_list. }
  rewrite (defineGlobalHTMLProperties_defines _ _ propName Hin Hfree).
  unfold globalHTMLPropertyGetter. run. by rewrite Hg.
Qed.

End Theorems.

(** ** Further properties of the members *)

Section MoreTheorems.
Context `{env : Collaborators}.

#[local] Arguments js_get : simpl never.
#[local] Arguments js_set : simpl never.
#[local] Arguments subscribeToSetHook : simpl never.
#[local] Arguments notifyListeners : simpl never.

Ltac step :=
  unfold bind, ret, current, modify, when, throw, assert_vm, assert_logError,
    assert_logWarning, assert_fail, assert_block, assert_isFalse, consoleWrite; simpl.

Lemma with_console_nil st : with_console (console st ++ []) st = st.
Proof. destruct st. unfold with_console. simpl. by rewrite app_nil_r. Qed.

Lemma observable_is_reference h v :
  isObservable h v = true → ∃ l, obsId v = Some l ∧ getReactiveProxy v = VProxy l.
Proof. destruct v; try done; by eexists. Qed.

(** *** state *)

(** X1.  A successful assignment to [state] replaces the wrapper held by the
    view-model and does nothing else (no allocation, no notification); the
    next read of [state] returns the wrapper of the assigned object without
    creating anything; and assigning that wrapper again changes nothing. *)
Theorem state_write_then_read newState st :
  isArray (heap st) newState = false → isObservable (heap st) newState = true →
  let st1 := with_vm (vm_with_cmpState (getReactiveProxy newState) (vm st)) st in
  set_state newState st = (Normal tt, st1)
  ∧ get_state st1 = (Normal (getReactiveProxy newState), st1)
  ∧ set_state (getReactiveProxy newState) st1 = (Normal tt, st1).
Proof.
  intros Ha Ho. destruct (observable_is_reference _ _ Ho) as (l & Hid & Hw).
  simpl. split; [by apply set_state_ignores_rendering|].
  rewrite Hw. split.
  - unfold get_state. by step.
  - assert (isArray (heap st) (VProxy l) = isArray (heap st) newState) as Ha'
      by (by destruct newState; simpl in Hid; try done; injection Hid as ->).
    assert (isObservable (heap st) (VProxy l) = isObservable (heap st) newState) as Ho'
      by (by destruct newState; simpl in Hid; try done; injection Hid as ->).
    unfold set_state. step. by rewrite Ha', Ho', Ha, Ho.
Qed.

(** *** tabIndex *)

Lemma toInt32_range z : (-2147483648 ≤ toInt32 z < 2147483648)%Z.
Proof.
  unfold toInt32.
  pose proof (Z.mod_pos_bound (z + 2147483648) 4294967296 eq_refl). lia.
Qed.

Lemma toInt32_small z : (-2147483648 ≤ z < 2147483648)%Z → toInt32 z = z.
Proof. intros Hz. unfold toInt32. rewrite Z.mod_small by lia. lia. Qed.

(** X2.  Outside construction and outside a render pass, [set tabIndex] stores
    the value on the host element as a 32-bit [long], where [get tabIndex]
    reads it back: the value itself when it lies in [-2^31, 2^31), and the
    value wrapped around modulo 2^32 otherwise.  The tag name is left alone.
    During a render pass the setter fails; during construction it fails too;
    in both cases the world stays as it was. *)
Theorem tabIndex_contract z st :
  (isRendering st = false → phase st ≠ Constructing →
   let st1 := with_vm (vm_with_tabIndex (toInt32 z) (vm st)) st in
   set_tabIndex z st = (Normal tt, st1)
   ∧ get_tabIndex st1 = (Normal (VNum (toInt32 z)), st1)
   ∧ (-2147483648 ≤ toInt32 z < 2147483648)%Z
   ∧ ((-2147483648 ≤ z < 2147483648)%Z → toInt32 z = z)
   ∧ fst (get_tagName st1) = fst (get_tagName st))
  ∧ (isRendering st = true → ∃ msg, set_tabIndex z st = (Throw (Error msg), st))
  ∧ (isRendering st = false → phase st = Constructing →
     ∃ msg, set_tabIndex z st = (Throw (Error msg), st)).
Proof.
  split; [|split].
  - intros Hr Hc%phase_not_constructing. simpl.
    split; [unfold set_tabIndex; step; by rewrite Hr, Hc|].
    split; [done|]. split; [apply toInt32_range|]. split; [apply toInt32_small|done].
  - apply set_tabIndex_rejects_rendering.
  - intros Hr Hc%phase_constructing. unfold set_tabIndex. step. rewrite Hr, Hc.
    simpl. by eexists.
Qed.

(** *** getAttribute *)

Lemma getAttribute_world args st :
  ∃ log, snd (getAttribute args st) = with_console (console st ++ log) st
       ∧ length log ≤ 1
       ∧ ∀ entry, entry ∈ log → entry.1 = LevelError.
Proof.
  assert (∃ log, st = with_console (console st ++ log) st
               ∧ length log ≤ 1 ∧ ∀ entry, entry ∈ log → entry.1 = LevelError) as Hsame.
  { exists []. rewrite with_console_nil. split; [done|]. split; [simpl; lia|].
    by intros entry ?%not_elem_of_nil. }
  assert (∀ msg, ∃ log, with_console (console st ++ [(LevelError, msg)]) st
                        = with_console (console st ++ log) st
               ∧ length log ≤ 1 ∧ ∀ entry, entry ∈ log → entry.1 = LevelError) as Hone.
  { intros msg. exists [(LevelError, msg)]. split; [done|]. split; [simpl; lia|].
    by intros entry ->%list_elem_of_singleton. }
  unfold getAttribute. step.
  destruct (truthy (nth 0 args VUndefined)); simpl.
  - destruct (truthy (default VUndefined _)); simpl; [done|].
    destruct (GlobalHTMLProperties !! _) as [g|]; simpl; [|done].
    destruct (truthyString (attribute g)); simpl; [|done].
    destruct (truthyString (error g)); simpl; [apply Hone|].
    destruct (experimental g); simpl; [apply Hone|done].
  - by case_bool_decide.
Qed.

(** X3.  [getAttribute] only reads: whatever its arguments and however it
    ends, it leaves the store, the view-model, the registry and the schedule
    as they were, and adds at most one entry to the console, at error level. *)
Theorem getAttribute_only_reads args st :
  ∃ log, snd (getAttribute args st) = with_console (console st ++ log) st
       ∧ length log ≤ 1
       ∧ ∀ entry, entry ∈ log → entry.1 = LevelError.
Proof. apply getAttribute_world. Qed.

(** *** The prototype *)

Lemma defineGlobalHTMLProperties_members names proto name :
  is_Some (foldl defineGlobalHTMLProperty proto names !! name)
  ↔ is_Some (proto !! name) ∨ (name ∈ names ∧ name ∉ ObjectPrototypeNames).
Proof.
  revert proto. induction names as [|n names IH]; intros proto; simpl.
  - split; [by left|]. intros [?|[?%not_elem_of_nil _]]; done.
  - rewrite IH. unfold defineGlobalHTMLProperty, inPrototype.
    destruct (bool_decide (is_Some (proto !! n))) eqn:Hown; simpl.
    + apply bool_decide_eq_true in Hown. rewrite elem_of_cons. split.
      * intros [?|[? ?]]; [by left|]. right. split; [by right|done].
      * intros [?|[[->|?] ?]]; [by left|by left|]. right. by split.
    + apply bool_decide_eq_false in Hown.
      destruct (bool_decide (n ∈ ObjectPrototypeNames)) eqn:Hobj; simpl.
      * apply bool_decide_eq_true in Hobj. rewrite elem_of_cons. split.
        -- intros [?|[? ?]]; [by left|]. right. split; [by right|done].
        -- intros [?|[[->|?] ?]]; [by left|done|]. right. by split.
      * apply bool_decide_eq_false in Hobj. rewrite elem_of_cons. split.
        -- intros [Hin|[? ?]].
           ++ destruct (decide (n = name)) as [->|Hne].
              ** right. split; [by left|done].
              ** left. by rewrite lookup_insert_ne in Hin.
           ++ right. split; [by right|done].
        -- intros [Hin|[[->|?] ?]].
           ++ left. destruct (decide (n = name)) as [->|Hne].
              ** rewrite lookup_insert_eq. by eexists.
              ** by rewrite lookup_insert_ne.
           ++ left. rewrite lookup_insert_eq. by eexists.
           ++ right. by split.
Qed.

(** X4.  The development-mode block only adds to the prototype.  Every member
    written in the object literal is kept as it is, also when the global HTML
    attribute table has an entry of that name; and the members of the
    resulting prototype are those of the literal together with the names of
    the table that [Object.prototype] does not provide. *)
Theorem sealed_prototype_members propName :
  (∀ member, ComponentElement_prototype !! propName = Some member →
             ComponentElement_prototype_sealed !! propName = Some member)
  ∧ (is_Some (ComponentElement_prototype_sealed !! propName)
     ↔ is_Some (ComponentElement_prototype !! propName)
       ∨ (is_Some (GlobalHTMLProperties !! propName) ∧ propName ∉ ObjectPrototypeNames)).
Proof.
  split.
  - intros member Hm. by apply defineGlobalHTMLProperties_keeps.
  - unfold ComponentElement_prototype_sealed.
    rewrite defineGlobalHTMLProperties_members.
    assert (propName ∈ getOwnPropertyNames GlobalHTMLProperties
            ↔ is_Some (GlobalHTMLProperties !! propName)) as ->; [|done].
    unfold getOwnPropertyNames. rewrite list_elem_of_fmap. split.
    + intros ([k g] & -> & Hin%elem_of_map_to_list). by eexists.
    + intros [g Hg]. exists (propName, g). split; [done|]. by apply elem_of_map_to_list.
Qed.

(** *** Wired properties *)

Lemma isArray_same_objects h h' x :
  (∀ l, lookupObject h' l = lookupObject h l) → isArray h' x = isArray h x.
Proof. intros Heq. unfold isArray. destruct x; simpl; try done; by rewrite Heq. Qed.

Lemma lazyCmpWired_undefined st :
  cmpWired (vm st) = VUndefined →
  lazyCmpWired st
  = (Normal (VProxy (fresh (dom (heap st)))),
     with_vm (vm_with_cmpWired (VProxy (fresh (dom (heap st)))) (vm st))
             (with_heap (<[fresh (dom (heap st)) := emptyObject]> (heap st)) st)).
Proof. intros Hu. unfold lazyCmpWired, create_null, allocate. step. by rewrite Hu. Qed.

Lemma subscribe_outside_render ctx target key st :
  isRendering st = false → subscribeToSetHook ctx target key st = (Normal tt, st).
Proof. intros Hr. unfold subscribeToSetHook. by rewrite Hr. Qed.

Lemma subscribe_rendering_proxy c l key st :
  isRendering st = true →
  subscribeToSetHook (Some c) (VProxy l) key st
  = (Normal tt, with_listeners (addListener (listeners st) l key c) st).
Proof. intros Hr. unfold subscribeToSetHook. by rewrite Hr. Qed.

(** The wired getter on an existing store: the value, and the subscriptions of
    the rendering context when there is one. *)
Lemma wiredGetter_defined propName lw st :
  cmpWired (vm st) = VProxy lw →
  wiredGetter propName st
  = (Normal (wrapIfObservable (heap st) (readField (heap st) lw propName)),
     match isRendering st, vmBeingRendered st with
     | true, Some c =>
         with_listeners
           (addListener (addListener (listeners st) lw propName c) lw propName c) st
     | _, _ => st
     end).
Proof.
  intros Hw. unfold wiredGetter, bind, current, assert_vm, ret.
  rewrite (lazyCmpWired_defined lw st Hw). unfold js_get, bind, current, ret.
  destruct (isRendering st) eqn:Hr.
  - destruct (vmBeingRendered st) as [c|] eqn:Hc.
    + rewrite subscribe_rendering_proxy by done. simpl. rewrite Hr, Hc. simpl.
      by rewrite subscribe_rendering_proxy.
    + unfold subscribeToSetHook. rewrite Hr. simpl. rewrite Hr. simpl.
      unfold subscribeToSetHook. by rewrite Hr, Hc.
  - rewrite subscribe_outside_render by done. simpl. by rewrite Hr.
Qed.

(** X5.  The first read of a wired property, on a view-model that has no wired
    store yet and outside a render pass, creates the store as the wrapper of a
    new empty record and returns [undefined]; after that, reading any wired
    property that was never written returns [undefined] and changes nothing. *)
Theorem wired_first_read propName other st :
  cmpWired (vm st) = VUndefined → isRendering st = false →
  let l := fresh (dom (heap st)) in
  let st1 := with_vm (vm_with_cmpWired (VProxy l) (vm st))
                     (with_heap (<[l := emptyObject]> (heap st)) st) in
  heap st !! l = None
  ∧ get (createWiredPropertyDescriptor propName) st = (Normal VUndefined, st1)
  ∧ get (createWiredPropertyDescriptor other) st1 = (Normal VUndefined, st1).
Proof.
  intros Hu Hr. simpl. split; [apply fresh_not_allocated|].
  assert (∀ key, readField (<[fresh (dom (heap st)) := emptyObject]> (heap st))
                           (fresh (dom (heap st))) key = VUndefined) as Hempty.
  { intros key. unfold readField, lookupObject. by rewrite lookup_insert_eq. }
  split.
  - unfold wiredGetter, bind, current, assert_vm, ret.
    rewrite (lazyCmpWired_undefined st Hu). unfold js_get, bind, current, ret.
    rewrite subscribe_outside_render by done. simpl. rewrite Hr. simpl.
    by rewrite Hempty.
  - rewrite (wiredGetter_defined other (fresh (dom (heap st)))) by done.
    simpl. rewrite Hr. by rewrite Hempty.
Qed.

(** The successful path of the wired setter, with the store it wrote to. *)
Lemma wiredSetter_result propName value lo st :
  obsId value = Some lo →
  isObservable (heap st) value = true → isArray (heap st) value = false →
  is_Some (heap st !! lo) →
  cmpWired (vm st) = VUndefined ∨ (∃ lw, cmpWired (vm st) = VProxy lw ∧ lw ≠ lo) →
  ∃ lw st_a new,
    lazyCmpWired st = (Normal (VProxy lw), st_a)
    ∧ wiredSetter propName value st
      = (Normal tt,
         with_scheduled (scheduled st ++ new)
           (with_heap (writeField (heap st_a) lw propName (VProxy lo)) st_a))
    ∧ cmpWired (vm st_a) = VProxy lw ∧ lw ≠ lo
    ∧ (∀ l, lookupObject (heap st_a) l = lookupObject (heap st) l)
    ∧ isRendering st_a = isRendering st ∧ vmBeingRendered st_a = vmBeingRendered st
    ∧ NoDup new
    ∧ (∀ c, c ∈ new ↔ (lw, propName, c) ∈ listeners st ∧ c ∉ scheduled st).
Proof.
  intros Hid Ho Ha Hlive Hstore.
  assert (∃ lw st_a, lazyCmpWired st = (Normal (VProxy lw), st_a)
            ∧ cmpWired (vm st_a) = VProxy lw ∧ lw ≠ lo
            ∧ (∀ l, lookupObject (heap st_a) l = lookupObject (heap st) l)
            ∧ isRendering st_a = isRendering st
            ∧ vmBeingRendered st_a = vmBeingRendered st
            ∧ listeners st_a = listeners st ∧ scheduled st_a = scheduled st)
    as (lw & st_a & Hlazy & Hw & Hne & Hobj & Hr & Hv & Hls & Hsch).
  { destruct Hstore as [Hu | (lw & Hw & Hne)].
    - do 2 eexists. split; [by apply lazyCmpWired_undefined|]. simpl.
      split; [done|]. split.
      { intros Heq. rewrite <- Heq, fresh_not_allocated in Hlive. by destruct Hlive. }
      split; [apply lookupObject_allocate_empty|]. done.
    - exists lw, st. split; [by apply lazyCmpWired_defined|]. done. }
  unfold wiredSetter. step. rewrite Ha, Ho. simpl. unfold bind. rewrite Hlazy.
  assert (getReactiveProxy value = VProxy lo) as ->.
  { destruct value; simpl in Hid; try done; by injection Hid as ->. }
  rewrite js_set_proxy.
  edestruct (notify_schedules_subscribers (VProxy lw) lw propName) as (new & -> & Hnd & Hnew);
    [done|].
  edestruct (notify_schedules_subscribers (VProxy lw) lw propName) as (new2 & -> & Hnd2 & Hnew2);
    [done|].
  simpl in *.
  assert (new2 = []) as ->.
  { destruct new2 as [|c ?]; [done|]. exfalso.
    destruct (Hnew2 c) as [[Hin Hnot] _]; [by left|].
    apply Hnot, elem_of_app. destruct (decide (c ∈ scheduled st_a)); [by left|].
    right. by apply Hnew. }
  exists lw, st_a, new. rewrite app_nil_r, <- Hsch.
  do 8 (split; [done|]).
  intros c. by rewrite Hnew, Hls.
Qed.

(** X6.  Writing one wired property does not change what another one reads. *)
Theorem wired_write_other_property propName other value lo st :
  propName ≠ other →
  obsId value = Some lo →
  isObservable (heap st) value = true → isArray (heap st) value = false →
  is_Some (heap st !! lo) →
  cmpWired (vm st) = VUndefined ∨ (∃ lw, cmpWired (vm st) = VProxy lw ∧ lw ≠ lo) →
  fst (get (createWiredPropertyDescriptor other)
           (snd (set (createWiredPropertyDescriptor propName) value st)))
  = fst (get (createWiredPropertyDescriptor other) st).
Proof.
  intros Hne Hid Ho Ha Hlive Hstore. simpl.
  destruct (wiredSetter_result propName value lo st Hid Ho Ha Hlive Hstore)
    as (lw & st_a & new & Hlazy & -> & Hw & Hlo & Hobj & _).
  simpl. rewrite (wiredGetter_defined other lw) by done. simpl.
  assert (fst (wiredGetter other st)
          = Normal (wrapIfObservable (heap st_a) (readField (heap st_a) lw other))) as ->.
  { unfold wiredGetter, bind, current, assert_vm, ret. rewrite Hlazy.
    destruct (js_get_proxy lw other st_a) as [ls ->].
    by edestruct when_subscribe_result as [ls2 ->]. }
  f_equal. unfold wrapIfObservable.
  rewrite readField_writeField_other by congruence.
  by rewrite isObservable_writeField.
Qed.

(** X7.  Dependency tracking through a wired property, with the watcher as the
    specification describes it: a context that read the property during its
    render pass, and is not pending, is scheduled exactly once by the next
    successful write of that property. *)
Theorem wired_read_then_write propName value lo c st :
  isRendering st = true → vmBeingRendered st = Some c →
  obsId value = Some lo →
  isObservable (heap st) value = true → isArray (heap st) value = false →
  is_Some (heap st !! lo) →
  cmpWired (vm st) = VUndefined ∨ (∃ lw, cmpWired (vm st) = VProxy lw ∧ lw ≠ lo) →
  c ∉ scheduled st →
  let d := createWiredPropertyDescriptor propName in
  let afterRender := with_rendering false None (snd (get d st)) in
  fst (set d value afterRender) = Normal tt
  ∧ ∃ new, scheduled (snd (set d value afterRender)) = scheduled st ++ new
         ∧ length (filter (λ x, x = c) new) = 1%nat.
Proof.
  intros Hr Hc Hid Ho Ha Hlive Hstore Hpending. simpl.
  assert (∃ lw st1, snd (wiredGetter propName st) = st1
            ∧ cmpWired (vm st1) = VProxy lw ∧ lw ≠ lo
            ∧ (∀ l, lookupObject (heap st1) l = lookupObject (heap st) l)
            ∧ is_Some (heap st1 !! lo)
            ∧ (lw, propName, c) ∈ listeners st1
            ∧ scheduled st1 = scheduled st)
    as (lw & st1 & -> & Hw & Hne & Hobj & Hlive1 & Hsub & Hsch).
  { destruct Hstore as [Hu | (lw & Hw & Hne)].
    - exists (fresh (dom (heap st))). eexists. split; [reflexivity|].
      unfold wiredGetter, bind, current, assert_vm, ret.
      rewrite (lazyCmpWired_undefined st Hu). unfold js_get, bind, current, ret.
      simpl. rewrite Hc, subscribe_rendering_proxy by done. simpl.
      rewrite Hr, Hc. simpl. rewrite subscribe_rendering_proxy by done. simpl.
      assert (fresh (dom (heap st)) ≠ lo) as Hfresh.
      { intros Heq. rewrite <- Heq, fresh_not_allocated in Hlive. by destruct Hlive. }
      split; [done|]. split; [done|].
      split; [apply lookupObject_allocate_empty|].
      split; [by rewrite lookup_insert_ne|].
      split; [apply elem_of_addListener|done].
    - exists lw. eexists. split; [reflexivity|].
      rewrite (wiredGetter_defined propName lw st Hw). rewrite Hr, Hc. simpl.
      do 4 (split; [done|]). split; [apply elem_of_addListener|done]. }
  set (st2 := with_rendering false None st1).
  destruct (wiredSetter_result propName value lo st2) as
    (lw' & st_a & new & Hlazy & -> & _ & _ & _ & _ & _ & Hnd & Hnew).
  - done.
  - simpl. by rewrite (isObservable_same_objects (heap st)).
  - simpl. by rewrite (isArray_same_objects (heap st)).
  - done.
  - right. by exists lw.
  - rewrite (lazyCmpWired_defined lw st2) in Hlazy by done.
    injection Hlazy as <- <-.
    simpl. split; [done|]. exists new. rewrite Hsch. split; [done|].
    apply count_NoDup_elem; [done|]. apply Hnew. simpl. by rewrite Hsch.
Qed.

(** *** Public properties *)

(** X8.  During construction, the default setter of a public property writes
    one field of the public-props record and nothing else: every other field
    of every object reads as before, no object changes kind, the view-model,
    the registry and the schedule are untouched (nobody is notified). *)
Theorem public_write_frame propName value st :
  phase st = Constructing →
  let st1 := snd (set (createPublicPropertyDescriptor propName None) value st) in
  (∀ l key, (l, key) ≠ (cmpProps (vm st), propName) →
            readField (heap st1) l key = readField (heap st) l key)
  ∧ (∀ x, isObservable (heap st1) x = isObservable (heap st) x)
  ∧ vm st1 = vm st ∧ listeners st1 = listeners st ∧ scheduled st1 = scheduled st.
Proof.
  intros Hc%phase_constructing. simpl.
  destruct (publicSetter_default propName value st Hc) as [log ->]. simpl.
  split.
  - intros l key Hne. apply readField_writeField_other. congruence.
  - split; [|done]. intros x. apply isObservable_writeField.
Qed.

(** *** Queries *)

(** X9.  Side effects of the queries, outside construction.  A query that
    finds a passed-in node leaves the world as it is.  A query that finds none
    reads [root] (creating it when it does not exist) and adds one warning to
    the console exactly when the same query on the shadow root finds
    something. *)
Theorem query_side_effects selectors st :
  phase st ≠ Constructing →
  let v := vm st in
  let passed := filter (λ n, wasNodePassedIntoVM v n = true)
                       (elm_querySelectorAll (elm (vnode v)) selectors) in
  (passed ≠ [] →
   snd (querySelectorAll selectors st) = st ∧ snd (querySelector selectors st) = st)
  ∧ (passed = [] →
     ∃ root st_r, get_root st = (Normal root, st_r)
       ∧ (shadowRootQuerySelectorAll root selectors = [] →
          snd (querySelectorAll selectors st) = st_r)
       ∧ (shadowRootQuerySelectorAll root selectors ≠ [] →
          ∃ msg, snd (querySelectorAll selectors st)
                 = with_console (console st_r ++ [(LevelWarn, msg)]) st_r)
       ∧ (truthy (shadowRootQuerySelector root selectors) = false →
          snd (querySelector selectors st) = st_r)
       ∧ (truthy (shadowRootQuerySelector root selectors) = true →
          ∃ msg, snd (querySelector selectors st)
                 = with_console (console st_r ++ [(LevelWarn, msg)]) st_r)).
Proof.
  intros Hc%phase_not_constructing. simpl. split.
  - intros Hsome. split.
    + unfold querySelectorAll, querySelectorAllFromComponent, getLinkedElement. step.
      rewrite Hc. simpl. case_bool_decide as Hlen; [|done].
      by apply length_zero_iff_nil in Hlen.
    + unfold querySelector, querySelectorAllFromComponent, getLinkedElement. step.
      rewrite Hc. simpl. rewrite querySelector_for_first by lia. rewrite drop_0.
      by destruct (filter _ _).
  - intros Hnone. destruct (get_root_normal st) as (root & st_r & Hroot).
    exists root, st_r. split; [done|].
    assert (snd (querySelectorAll selectors st)
            = if bool_decide (length (shadowRootQuerySelectorAll root selectors) = 0%nat)
              then st_r
              else with_console
                     (console st_r ++
                        [(LevelWarn,
                          "this.querySelectorAll() can only return elements that were passed into "
                          +:+ toString (vm st)
                          +:+ " via slots. It seems that you are looking for elements from your template declaration, in which case you should use this.root.querySelectorAll() instead.")])
                     st_r) as Hall.
    { unfold querySelectorAll, querySelectorAllFromComponent, getLinkedElement. step.
      rewrite Hc. simpl. rewrite Hnone. simpl. rewrite Hroot.
      by case_bool_decide. }
    assert (snd (querySelector selectors st)
            = if truthy (shadowRootQuerySelector root selectors)
              then with_console
                     (console st_r ++
                        [(LevelWarn,
                          "this.querySelector() can only return elements that were passed into "
                          +:+ toString (vm st)
                          +:+ " via slots. It seems that you are looking for elements from your template declaration, in which case you should use this.root.querySelector() instead.")])
                     st_r
              else st_r) as Hone.
    { unfold querySelector, querySelectorAllFromComponent, getLinkedElement. step.
      rewrite Hc. simpl. rewrite querySelector_for_first by lia. rewrite drop_0, Hnone.
      simpl. rewrite Hroot. by destruct (truthy _). }
    rewrite Hall, Hone. repeat split.
    + intros ->. done.
    + intros Hne. rewrite bool_decide_eq_false_2; [by eexists|].
      by intros ?%length_zero_iff_nil.
    + by intros ->.
    + intros ->. by eexists.
Qed.

(** *** Lazily created objects *)

(** X10.  On a view-model that has none of them yet, the objects behind
    [classList], [root] and [state] are three different objects, and none of
    them is an object that was in the store before. *)
Theorem lazy_objects_are_distinct st :
  classListObj (vm st) = VUndefined → cmpRoot (vm st) = VUndefined →
  cmpState (vm st) = VUndefined →
  let r1 := get_classList st in
  let r2 := get_root (snd r1) in
  let r3 := get_state (snd r2) in
  ∃ lc lr ls,
    fst r1 = Normal (VRef lc) ∧ fst r2 = Normal (VRef lr) ∧ fst r3 = Normal (VProxy ls)
    ∧ lc ≠ lr ∧ lc ≠ ls ∧ lr ≠ ls
    ∧ heap st !! lc = None ∧ heap st !! lr = None ∧ heap st !! ls = None.
Proof.
  intros Hc Hr Hs. simpl.
  unfold get_classList, get_root, get_state, create_null, allocate. step.
  rewrite Hc. simpl. rewrite Hr. simpl. rewrite Hs. simpl.
  set (h := heap st).
  set (l0 := fresh (dom h)).
  set (h1 := <[l0 := emptyObject]> h).
  set (lc := fresh (dom h1)).
  set (h2 := <[lc := mkObject ExoticObject ∅]> h1).
  set (lr := fresh (dom h2)).
  set (h3 := <[lr := mkObject ExoticObject ∅]> h2).
  set (ls := fresh (dom h3)).
  assert (lc ∉ dom h1) as Hlc by apply is_fresh.
  assert (lr ∉ dom h2) as Hlr by apply is_fresh.
  assert (ls ∉ dom h3) as Hls by apply is_fresh.
  unfold h3 in Hls. unfold h2 in Hlr, Hls. unfold h1 in Hlc, Hlr, Hls.
  rewrite !dom_insert_L in Hlc, Hlr, Hls.
  exists lc, lr, ls. do 3 (split; [done|]).
  repeat split; try (apply not_elem_of_dom); set_solver.
Qed.

(** *** Sequences of calls *)

Lemma preserved_refl st : preserved st st.
Proof. do 3 (split; [done|]). intros l Hl. by split. Qed.

Lemma preserved_trans st1 st2 st3 :
  preserved st1 st2 → preserved st2 st3 → preserved st1 st3.
Proof.
  intros (Hu & Hp & Hw & Hh) (Hu' & Hp' & Hw' & Hh').
  split; [congruence|]. split; [congruence|]. split; [tauto|].
  intros l Hl. destruct (Hh l Hl) as [Hl2 Hk]. destruct (Hh' l Hl2) as [Hl3 Hk'].
  split; [done|congruence].
Qed.

(** Changes that keep the view-model and the store. *)
Lemma preserved_same st st' :
  vm st' = vm st → heap st' = heap st → preserved st st'.
Proof.
  intros Hv Hh. unfold preserved, storesWrapped. rewrite Hv, Hh.
  do 3 (split; [done|]). intros l Hl. by split.
Qed.

Lemma preserved_write st st' l key v :
  vm st' = vm st → heap st' = writeField (heap st) l key v → preserved st st'.
Proof.
  intros Hv Hh. unfold preserved, storesWrapped. rewrite Hv, Hh.
  do 3 (split; [done|]). intros l' Hl'. split; [|apply kind_writeField].
  unfold writeField. destruct (decide (l = l')) as [->|Hne].
  - rewrite lookup_insert_eq. by eexists.
  - by rewrite lookup_insert_ne.
Qed.

Lemma preserved_allocate st st' o :
  uid (vm st') = uid (vm st) → cmpProps (vm st') = cmpProps (vm st) →
  (storesWrapped st → storesWrapped st') →
  heap st' = <[fresh (dom (heap st)) := o]> (heap st) → preserved st st'.
Proof.
  intros Hu Hp Hw Hh. do 3 (split; [done|]). intros l Hl. rewrite Hh.
  assert (fresh (dom (heap st)) ≠ l) as Hne.
  { intros <-. rewrite fresh_not_allocated in Hl. by destruct Hl. }
  unfold lookupObject. by rewrite lookup_insert_ne.
Qed.

Lemma keeps_ret {A} (a : A) : keeps (ret a).
Proof. intros st. apply preserved_refl. Qed.

Lemma keeps_throw {A} e : keeps (@throw A e).
Proof. intros st. apply preserved_refl. Qed.

Lemma keeps_current : keeps current.
Proof. intros st. apply preserved_refl. Qed.

Lemma keeps_bind {A B} (m : M A) (k : A → M B) :
  keeps m → (∀ a, keeps (k a)) → keeps (bind m k).
Proof.
  intros Hm Hk st. unfold bind. specialize (Hm st).
  destruct (m st) as [[a|e] st']; simpl in *; [|done].
  eapply preserved_trans; [done|]. apply Hk.
Qed.

Lemma keeps_when b (m : M unit) : keeps m → keeps (when b m).
Proof. intros Hm. destruct b; [done|apply keeps_ret]. Qed.

Lemma keeps_consoleWrite lvl msg : keeps (consoleWrite lvl msg).
Proof. intros st. by apply preserved_same. Qed.

Lemma keeps_subscribe ctx target key : keeps (subscribeToSetHook ctx target key).
Proof.
  intros st. destruct (subscribe_result ctx target key st) as [ls ->].
  by apply preserved_same.
Qed.

Lemma keeps_notify target key : keeps (notifyListeners target key).
Proof.
  intros st. unfold notifyListeners. destruct (obsId target) as [l|].
  - destruct (forEach_schedule (subscribers (listeners st) l key) st) as (new & -> & _).
    by apply preserved_same.
  - apply preserved_refl.
Qed.

Lemma keeps_js_get target key : keeps (js_get target key).
Proof.
  destruct target; unfold js_get;
    repeat first [apply keeps_ret | apply keeps_throw | apply keeps_subscribe
                 | apply keeps_bind; [|intros ?] | apply keeps_current].
Qed.

Lemma keeps_js_set target key v : keeps (js_set target key v).
Proof.
  assert (∀ l, keeps (modify (λ st, with_heap (writeField (heap st) l key v) st))) as Hw.
  { intros l st. by eapply preserved_write. }
  destruct target; unfold js_set;
    repeat first [apply keeps_throw | apply Hw | apply keeps_notify
                 | apply keeps_bind; [|intros ?]].
Qed.

Lemma keeps_lazyCmpWired : keeps lazyCmpWired.
Proof.
  intros st. destruct (isUndefined (cmpWired (vm st))) eqn:Hu.
  - apply bool_decide_eq_true in Hu. rewrite (lazyCmpWired_undefined st Hu). simpl.
    eapply preserved_allocate; simpl; try done.
    intros [_ Hs]. by split.
  - unfold lazyCmpWired. step. rewrite Hu. apply preserved_refl.
Qed.

Lemma keeps_get_state : keeps get_state.
Proof.
  intros st. unfold get_state, create_null, allocate. step.
  destruct (isUndefined (cmpState (vm st))); simpl; [|apply preserved_refl].
  eapply preserved_allocate; simpl; try done.
  intros [Hw _]. by split.
Qed.

Lemma keeps_set_state newState : keeps (set_state newState).
Proof.
  intros st. unfold set_state. step.
  destruct (isArray (heap st) newState); simpl; [apply preserved_refl|].
  destruct (isObservable (heap st) newState) eqn:Ho; simpl; [|apply preserved_refl].
  destruct (observable_is_reference _ _ Ho) as (l & _ & Hw).
  do 2 (split; [done|]). split; [|by intros l' Hl'; split].
  intros [Hwired _]. split; [done|]. simpl. by rewrite Hw.
Qed.

Lemma keeps_get_root : keeps get_root.
Proof.
  intros st. unfold get_root, allocate. step.
  destruct (isUndefined (cmpRoot (vm st))); simpl; [|apply preserved_refl].
  by eapply preserved_allocate.
Qed.

Lemma keeps_get_classList : keeps get_classList.
Proof.
  intros st. unfold get_classList, allocate. step.
  destruct (isUndefined (classListObj (vm st))); simpl; [|apply preserved_refl].
  eapply preserved_trans.
  - by eapply (preserved_allocate st (with_heap (<[fresh (dom (heap st)) := emptyObject]> (heap st)) st)).
  - by eapply preserved_allocate.
Qed.

Lemma keeps_set_tabIndex z : keeps (set_tabIndex z).
Proof.
  intros st. unfold set_tabIndex. step.
  destruct (isRendering st); simpl; [apply preserved_refl|].
  destruct (isBeingConstructed st (vm st)); simpl; [apply preserved_refl|].
  do 3 (split; [done|]). intros l Hl. by split.
Qed.

Lemma keeps_getAttribute args : keeps (getAttribute args).
Proof.
  intros st. destruct (getAttribute_world args st) as (log & -> & _).
  by apply preserved_same.
Qed.

Ltac frame :=
  repeat first
    [ apply keeps_ret | apply keeps_throw | apply keeps_current
    | apply keeps_consoleWrite | apply keeps_subscribe | apply keeps_notify
    | apply keeps_js_get | apply keeps_js_set | apply keeps_lazyCmpWired
    | apply keeps_get_root | apply keeps_when
    | apply keeps_bind; [|intros ?]
    | match goal with
      | |- keeps (if ?b then _ else _) => destruct b
      | |- keeps (match ?x with _ => _ end) => destruct x
      end ].

Lemma keeps_publicGetter propName : keeps (publicGetter propName None).
Proof.
  unfold publicGetter, assert_vm, assert_logError. frame.
Qed.

Lemma keeps_publicSetter propName value : keeps (publicSetter propName None value).
Proof.
  unfold publicSetter, assert_vm, assert_logError, assert_logWarning, assert_block. frame.
Qed.

Lemma keeps_wiredGetter propName : keeps (wiredGetter propName).
Proof. unfold wiredGetter, assert_vm. frame. Qed.

Lemma keeps_wiredSetter propName value : keeps (wiredSetter propName value).
Proof. unfold wiredSetter, assert_vm, assert_fail. frame. Qed.

Lemma keeps_querySelector selectors : keeps (querySelector selectors).
Proof.
  unfold querySelector, querySelectorAllFromComponent, getLinkedElement,
    assert_isFalse, assert_block, assert_logWarning. frame.
Qed.

Lemma keeps_querySelectorAll selectors : keeps (querySelectorAll selectors).
Proof.
  unfold querySelectorAll, querySelectorAllFromComponent, getLinkedElement,
    assert_isFalse, assert_block, assert_logWarning. frame.
Qed.

Lemma keeps_globalHTMLPropertyGetter propName : keeps (globalHTMLPropertyGetter propName).
Proof. unfold globalHTMLPropertyGetter, assert_vm. frame. Qed.

(** The accessors of the prototype are the five of the object literal and the
    ones of the development-mode block. *)
Lemma sealed_prototype_accessor propName getter isEnumerable :
  ComponentElement_prototype_sealed !! propName = Some (AccessorProperty getter isEnumerable) →
  getter = get_tagName ∨ getter = get_tabIndex ∨ getter = get_classList
  ∨ getter = get_root ∨ getter = get_state
  ∨ getter = globalHTMLPropertyGetter propName.
Proof.
  unfold ComponentElement_prototype_sealed.
  assert (∀ proto,
            (∀ g e, proto !! propName = Some (AccessorProperty g e) →
                    g = get_tagName ∨ g = get_tabIndex ∨ g = get_classList
                    ∨ g = get_root ∨ g = get_state
                    ∨ g = globalHTMLPropertyGetter propName) →
            foldl defineGlobalHTMLProperty proto (getOwnPropertyNames GlobalHTMLProperties)
              !! propName = Some (AccessorProperty getter isEnumerable) →
            getter = get_tagName ∨ getter = get_tabIndex ∨ getter = get_classList
            ∨ getter = get_root ∨ getter = get_state
            ∨ getter = globalHTMLPropertyGetter propName) as Hfold.
  { induction (getOwnPropertyNames GlobalHTMLProperties) as [|n names IH]; intros proto Hproto.
    - simpl. apply Hproto.
    - simpl. apply IH. intros g e. unfold defineGlobalHTMLProperty.
      destruct (inPrototype proto n); [apply Hproto|].
      destruct (decide (n = propName)) as [->|Hne].
      + rewrite lookup_insert_eq. intros [= <- _]. tauto.
      + rewrite lookup_insert_ne by done. apply Hproto. }
  apply Hfold. intros g e Hbase.
  apply elem_of_list_to_map_2 in Hbase.
  repeat (apply elem_of_cons in Hbase as [Hbase|Hbase];
          [try discriminate Hbase; injection Hbase as _ <- _; tauto|]).
  by apply not_elem_of_nil in Hbase.
Qed.

Lemma keeps_readProperty propName : keeps (readProperty propName).
Proof.
  unfold readProperty.
  destruct (ComponentElement_prototype_sealed !! propName) as [[|getter e]|] eqn:Hm.
  - apply keeps_ret.
  - apply sealed_prototype_accessor in Hm as [->|[->|[->|[->|[->| ->]]]]].
    + unfold get_tagName, getLinkedElement. frame.
    + unfold get_tabIndex, getLinkedElement. frame.
    + apply keeps_get_classList.
    + apply keeps_get_root.
    + apply keeps_get_state.
    + apply keeps_globalHTMLPropertyGetter.
  - case_bool_decide; apply keeps_ret.
Qed.

(** X11.  An invariant of every sequence of calls on a component whose
    properties have no accessors of their own: the view-model keeps its
    identity and its public-props record; its wired store and its state,
    once they are wrappers (or not yet created), remain so; and every object
    that was allocated stays allocated and keeps its kind, so that a value
    that is observable remains observable. *)
Theorem calls_preserve_the_stores ops st :
  preserved st (performAll ops st).
Proof.
  revert st. induction ops as [|op ops IH]; intros st; [apply preserved_refl|].
  unfold performAll. simpl. eapply preserved_trans; [|apply IH].
  destruct op; simpl.
  - apply keeps_publicGetter.
  - apply keeps_publicSetter.
  - apply keeps_wiredGetter.
  - apply keeps_wiredSetter.
  - apply keeps_get_state.
  - apply keeps_set_state.
  - apply keeps_get_root.
  - apply keeps_get_classList.
  - apply keeps_set_tabIndex.
  - apply keeps_getAttribute.
  - apply keeps_querySelector.
  - apply keeps_querySelectorAll.
  - apply keeps_readProperty.
Qed.

(** *** Lazily created objects, over sequences of calls *)

Lemma lazyObjectsKept_refl b st : lazyObjectsKept b st st.
Proof. by repeat split. Qed.

Lemma lazyObjectsKept_trans b st1 st2 st3 :
  lazyObjectsKept b st1 st2 → lazyObjectsKept b st2 st3 → lazyObjectsKept b st1 st3.
Proof.
  intros (Hs & Hc & Hr) (Hs' & Hc' & Hr'). split; [|split].
  - intros Hb Hdef. rewrite <- (Hs Hb Hdef). apply Hs'; [done|]. by rewrite (Hs Hb Hdef).
  - intros Hdef. rewrite <- (Hc Hdef). apply Hc'. by rewrite (Hc Hdef).
  - intros Hdef. rewrite <- (Hr Hdef). apply Hr'. by rewrite (Hr Hdef).
Qed.

Lemma lazyObjectsKept_same_vm b st st' : vm st' = vm st → lazyObjectsKept b st st'.
Proof. intros Hv. unfold lazyObjectsKept. rewrite Hv. by repeat split. Qed.

Lemma lazy_ret b {A} (a : A) : keepsLazyObjects b (ret a).
Proof. intros st. apply lazyObjectsKept_refl. Qed.

Lemma lazy_throw b {A} e : keepsLazyObjects b (@throw A e).
Proof. intros st. apply lazyObjectsKept_refl. Qed.

Lemma lazy_current b : keepsLazyObjects b current.
Proof. intros st. apply lazyObjectsKept_refl. Qed.

Lemma lazy_bind b {A B} (m : M A) (k : A → M B) :
  keepsLazyObjects b m → (∀ a, keepsLazyObjects b (k a)) → keepsLazyObjects b (bind m k).
Proof.
  intros Hm Hk st. unfold bind. specialize (Hm st).
  destruct (m st) as [[a|e] st']; simpl in *; [|done].
  eapply lazyObjectsKept_trans; [done|]. apply Hk.
Qed.

Lemma lazy_when b c (m : M unit) : keepsLazyObjects b m → keepsLazyObjects b (when c m).
Proof. intros Hm. destruct c; [done|apply lazy_ret]. Qed.

Lemma lazy_consoleWrite b lvl msg : keepsLazyObjects b (consoleWrite lvl msg).
Proof. intros st. by apply lazyObjectsKept_same_vm. Qed.

Lemma lazy_subscribe b ctx target key :
  keepsLazyObjects b (subscribeToSetHook ctx target key).
Proof.
  intros st. destruct (subscribe_result ctx target key st) as [ls ->].
  by apply lazyObjectsKept_same_vm.
Qed.

Lemma lazy_notify b target key : keepsLazyObjects b (notifyListeners target key).
Proof.
  intros st. unfold notifyListeners. destruct (obsId target) as [l|].
  - destruct (forEach_schedule (subscribers (listeners st) l key) st) as (new & -> & _).
    by apply lazyObjectsKept_same_vm.
  - apply lazyObjectsKept_refl.
Qed.

Lemma lazy_js_get b target key : keepsLazyObjects b (js_get target key).
Proof.
  destruct target; unfold js_get;
    repeat first [apply lazy_ret | apply lazy_throw | apply lazy_subscribe
                 | apply lazy_bind; [|intros ?] | apply lazy_current].
Qed.

Lemma lazy_js_set b target key v : keepsLazyObjects b (js_set target key v).
Proof.
  assert (∀ l, keepsLazyObjects b
                 (modify (λ st, with_heap (writeField (heap st) l key v) st))) as Hw.
  { intros l st. by apply lazyObjectsKept_same_vm. }
  destruct target; unfold js_set;
    repeat first [apply lazy_throw | apply Hw | apply lazy_notify
                 | apply lazy_bind; [|intros ?]].
Qed.

Lemma lazy_lazyCmpWired b : keepsLazyObjects b lazyCmpWired.
Proof.
  intros st. unfold lazyCmpWired, create_null, allocate. step.
  destruct (isUndefined (cmpWired (vm st))); simpl; by repeat split.
Qed.

Lemma lazy_get_state b : keepsLazyObjects b get_state.
Proof.
  intros st. unfold get_state, create_null, allocate. step.
  destruct (isUndefined (cmpState (vm st))) eqn:Hu; simpl;
    [|apply lazyObjectsKept_refl].
  apply bool_decide_eq_true in Hu. split; [|by split]. by intros _ Hdef.
Qed.

Lemma lazy_set_state newState : keepsLazyObjects false (set_state newState).
Proof.
  intros st. unfold set_state. step.
  destruct (isArray (heap st) newState || negb (isObservable (heap st) newState)); simpl;
    by repeat split.
Qed.

Lemma lazy_get_root b : keepsLazyObjects b get_root.
Proof.
  intros st. unfold get_root, allocate. step.
  destruct (isUndefined (cmpRoot (vm st))) eqn:Hu; simpl;
    [|apply lazyObjectsKept_refl].
  apply bool_decide_eq_true in Hu. split; [done|]. split; [done|]. by intros Hdef.
Qed.

Lemma lazy_get_classList b : keepsLazyObjects b get_classList.
Proof.
  intros st. unfold get_classList, allocate. step.
  destruct (isUndefined (classListObj (vm st))) eqn:Hu; simpl;
    [|apply lazyObjectsKept_refl].
  apply bool_decide_eq_true in Hu. split; [done|]. split; [|done]. by intros Hdef.
Qed.

Lemma lazy_set_tabIndex b z : keepsLazyObjects b (set_tabIndex z).
Proof.
  intros st. unfold set_tabIndex. step.
  destruct (isRendering st); simpl; [apply lazyObjectsKept_refl|].
  destruct (isBeingConstructed st (vm st)); simpl; by repeat split.
Qed.

Ltac frameLazy :=
  repeat first
    [ apply lazy_ret | apply lazy_throw | apply lazy_current
    | apply lazy_consoleWrite | apply lazy_subscribe | apply lazy_notify
    | apply lazy_js_get | apply lazy_js_set | apply lazy_lazyCmpWired
    | apply lazy_get_root | apply lazy_when
    | apply lazy_bind; [|intros ?]
    | match goal with
      | |- keepsLazyObjects _ (if ?c then _ else _) => destruct c
      | |- keepsLazyObjects _ (match ?x with _ => _ end) => destruct x
      end ].

Lemma lazy_perform b op :
  (b = true → assignsState op = false) →
  keepsLazyObjects b (λ st, (Normal tt, perform op st)).
Proof.
  intros Hop.
  assert (∀ A (m : M A), keepsLazyObjects b m →
                         keepsLazyObjects b (λ st, (Normal tt, snd (m st)))) as Hsnd
    by (intros A m Hm st; apply Hm).
  destruct op; simpl; apply Hsnd.
  - unfold publicGetter, assert_vm, assert_logError. frameLazy.
  - unfold publicSetter, assert_vm, assert_logError, assert_logWarning, assert_block.
    frameLazy.
  - unfold wiredGetter, assert_vm. frameLazy.
  - unfold wiredSetter, assert_vm, assert_fail. frameLazy.
  - apply lazy_get_state.
  - destruct b; [by specialize (Hop eq_refl)|apply lazy_set_state].
  - apply lazy_get_root.
  - apply lazy_get_classList.
  - apply lazy_set_tabIndex.
  - unfold getAttribute, assert_vm, assert_block. frameLazy.
  - unfold querySelector, querySelectorAllFromComponent, getLinkedElement,
      assert_isFalse, assert_block, assert_logWarning. frameLazy.
  - unfold querySelectorAll, querySelectorAllFromComponent, getLinkedElement,
      assert_isFalse, assert_block, assert_logWarning. frameLazy.
  - unfold readProperty.
    destruct (ComponentElement_prototype_sealed !! propName) as [[|getter e]|] eqn:Hm.
    + apply lazy_ret.
    + apply sealed_prototype_accessor in Hm as [->|[->|[->|[->|[->| ->]]]]].
      * unfold get_tagName, getLinkedElement. frameLazy.
      * unfold get_tabIndex, getLinkedElement. frameLazy.
      * apply lazy_get_classList.
      * apply lazy_get_root.
      * apply lazy_get_state.
      * unfold globalHTMLPropertyGetter, assert_vm. frameLazy.
    + case_bool_decide; apply lazy_ret.
Qed.

(** No call replaces the objects behind [classList] and [root], and no call
    but an assignment to [state] replaces the one behind [state]. *)
Lemma calls_keep_lazy_objects b ops st :
  (b = true → ∀ op, op ∈ ops → assignsState op = false) →
  lazyObjectsKept b st (performAll ops st).
Proof.
  revert st. induction ops as [|op ops IH]; intros st Hops;
    [apply lazyObjectsKept_refl|].
  unfold performAll. simpl. eapply lazyObjectsKept_trans.
  - apply (lazy_perform b op). intros Hb. apply (Hops Hb). by left.
  - apply IH. intros Hb op' Hin. apply (Hops Hb). by right.
Qed.

Lemma get_state_defined v st :
  cmpState (vm st) = v → v ≠ VUndefined → get_state st = (Normal v, st).
Proof.
  intros Hv Hdef. unfold get_state, isUndefined. step. rewrite Hv.
  by rewrite (bool_decide_eq_false_2 (v = VUndefined)).
Qed.

Lemma get_classList_defined v st :
  classListObj (vm st) = v → v ≠ VUndefined → get_classList st = (Normal v, st).
Proof.
  intros Hv Hdef. unfold get_classList, isUndefined. step. rewrite Hv.
  by rewrite (bool_decide_eq_false_2 (v = VUndefined)).
Qed.

Lemma get_root_defined v st :
  cmpRoot (vm st) = v → v ≠ VUndefined → get_root st = (Normal v, st).
Proof.
  intros Hv Hdef. unfold get_root, isUndefined. step. rewrite Hv.
  by rewrite (bool_decide_eq_false_2 (v = VUndefined)).
Qed.

(** C10.  The objects behind [state], [classList] and [root] are created on
    the first read and are the same from then on.  The first read returns a
    defined reference that the view-model holds afterwards; when the
    view-model had none, it is a new object, at a location that was not
    allocated before, and otherwise nothing is created.  Every later read
    returns that same reference and changes nothing: the next read, and the
    read after any sequence of calls on the component (for [state]: any
    sequence that does not assign [state]). *)
Theorem lazy_objects_are_singletons st :
  (∃ v st1, get_state st = (Normal v, st1) ∧ get_state st1 = (Normal v, st1)
          ∧ v = (if isUndefined (cmpState (vm st))
                 then VProxy (fresh (dom (heap st))) else cmpState (vm st))
          ∧ v ≠ VUndefined
          ∧ cmpState (vm st1) = v
          ∧ (if isUndefined (cmpState (vm st))
             then heap st !! fresh (dom (heap st)) = None
                  ∧ heap st1 !! fresh (dom (heap st)) = Some emptyObject
             else st1 = st)
          ∧ (∀ ops, (∀ op, op ∈ ops → assignsState op = false) →
                    get_state (performAll ops st1) = (Normal v, performAll ops st1)))
  ∧ (∃ v st1, get_classList st = (Normal v, st1) ∧ get_classList st1 = (Normal v, st1)
          ∧ v = (if isUndefined (classListObj (vm st))
                 then VRef (fresh (dom (<[fresh (dom (heap st)) := emptyObject]> (heap st))))
                 else classListObj (vm st))
          ∧ v ≠ VUndefined
          ∧ classListObj (vm st1) = v
          ∧ (if isUndefined (classListObj (vm st))
             then ∃ l, v = VRef l ∧ heap st !! l = None
                       ∧ heap st1 !! l = Some (mkObject ExoticObject ∅)
             else st1 = st)
          ∧ (∀ ops, get_classList (performAll ops st1) = (Normal v, performAll ops st1)))
  ∧ (∃ v st1, get_root st = (Normal v, st1) ∧ get_root st1 = (Normal v, st1)
          ∧ v = (if isUndefined (cmpRoot (vm st))
                 then VRef (fresh (dom (heap st))) else cmpRoot (vm st))
          ∧ v ≠ VUndefined
          ∧ cmpRoot (vm st1) = v
          ∧ (if isUndefined (cmpRoot (vm st))
             then heap st !! fresh (dom (heap st)) = None
                  ∧ heap st1 !! fresh (dom (heap st)) = Some (mkObject ExoticObject ∅)
             else st1 = st)
          ∧ (∀ ops, get_root (performAll ops st1) = (Normal v, performAll ops st1))).
Proof.
  split; [|split].
  - assert (∃ v st1, get_state st = (Normal v, st1)
              ∧ v = (if isUndefined (cmpState (vm st))
                     then VProxy (fresh (dom (heap st))) else cmpState (vm st))
              ∧ v ≠ VUndefined ∧ cmpState (vm st1) = v
              ∧ (if isUndefined (cmpState (vm st))
                 then heap st !! fresh (dom (heap st)) = None
                      ∧ heap st1 !! fresh (dom (heap st)) = Some emptyObject
                 else st1 = st))
      as (v & st1 & Hget & Hv & Hdef & Hheld & Hnew).
    { unfold get_state, create_null, allocate. step.
      destruct (isUndefined (cmpState (vm st))) eqn:Hu; simpl.
      - do 2 eexists. split; [reflexivity|]. simpl. do 3 (split; [done|]).
        split; [apply fresh_not_allocated|apply lookup_insert_eq].
      - do 2 eexists. split; [reflexivity|]. do 3 (split; [by apply bool_decide_eq_false in Hu|]).
        done. }
    exists v, st1. split; [done|]. split; [by apply get_state_defined|].
    do 4 (split; [done|]).
    intros ops Hops. apply get_state_defined; [|done].
    destruct (calls_keep_lazy_objects true ops st1 (λ _, Hops)) as (Hstate & _).
    rewrite Hstate; [done|done|by rewrite Hheld].
  - assert (∃ v st1, get_classList st = (Normal v, st1)
              ∧ v = (if isUndefined (classListObj (vm st))
                     then VRef (fresh (dom (<[fresh (dom (heap st)) := emptyObject]> (heap st))))
                     else classListObj (vm st))
              ∧ v ≠ VUndefined ∧ classListObj (vm st1) = v
              ∧ (if isUndefined (classListObj (vm st))
                 then ∃ l, v = VRef l ∧ heap st !! l = None
                           ∧ heap st1 !! l = Some (mkObject ExoticObject ∅)
                 else st1 = st))
      as (v & st1 & Hget & Hv & Hdef & Hheld & Hnew).
    { unfold get_classList, allocate. step.
      destruct (isUndefined (classListObj (vm st))) eqn:Hu; simpl.
      - do 2 eexists. split; [reflexivity|]. simpl. do 3 (split; [done|]).
        eexists. split; [reflexivity|]. split; [|apply lookup_insert_eq].
        pose proof (is_fresh (dom (<[fresh (dom (heap st)) := emptyObject]> (heap st))))
          as Hfresh.
        rewrite dom_insert_L in Hfresh. apply not_elem_of_dom.
        intros Hin. rewrite dom_insert_L in Hin. apply Hfresh, elem_of_union. by right.
      - do 2 eexists. split; [reflexivity|]. do 3 (split; [by apply bool_decide_eq_false in Hu|]).
        done. }
    exists v, st1. split; [done|]. split; [by apply get_classList_defined|].
    do 4 (split; [done|]).
    intros ops. apply get_classList_defined; [|done].
    destruct (calls_keep_lazy_objects false ops st1) as (_ & Hclass & _); [done|].
    rewrite Hclass; [done|by rewrite Hheld].
  - assert (∃ v st1, get_root st = (Normal v, st1)
              ∧ v = (if isUndefined (cmpRoot (vm st))
                     then VRef (fresh (dom (heap st))) else cmpRoot (vm st))
              ∧ v ≠ VUndefined ∧ cmpRoot (vm st1) = v
              ∧ (if isUndefined (cmpRoot (vm st))
                 then heap st !! fresh (dom (heap st)) = None
                      ∧ heap st1 !! fresh (dom (heap st)) = Some (mkObject ExoticObject ∅)
                 else st1 = st))
      as (v & st1 & Hget & Hv & Hdef & Hheld & Hnew).
    { unfold get_root, allocate. step.
      destruct (isUndefined (cmpRoot (vm st))) eqn:Hu; simpl.
      - do 2 eexists. split; [reflexivity|]. simpl. do 3 (split; [done|]).
        split; [apply fresh_not_allocated|apply lookup_insert_eq].
      - do 2 eexists. split; [reflexivity|]. do 3 (split; [by apply bool_decide_eq_false in Hu|]).
        done. }
    exists v, st1. split; [done|]. split; [by apply get_root_defined|].
    do 4 (split; [done|]).
    intros ops. apply get_root_defined; [|done].
    destruct (calls_keep_lazy_objects false ops st1) as (_ & _ & Hroot); [done|].
    rewrite Hroot; [done|by rewrite Hheld].
Qed.

End MoreTheorems.

Section HostTheorems.
Context `{env : Collaborators} `{host : HostElement}.

(** X12.  [dispatchEvent] and [getBoundingClientRect] fail inside the
    constructor without reaching the host element and without changing the
    world.  Outside it, [getBoundingClientRect] returns the rectangle of the
    host and changes nothing, and [dispatchEvent] hands the event to the host:
    directly when the element is connected, and after logging one warning
    when it is not ([idx] is 0); the event is dispatched all the same. *)
Theorem host_methods_contract event st :
  let e := elm (vnode (vm st)) in
  (phase st = Constructing →
   (∃ msg, dispatchEvent event st = (Throw (Error msg), st))
   ∧ (∃ msg, getBoundingClientRect st = (Throw (Error msg), st)))
  ∧ (phase st ≠ Constructing →
     getBoundingClientRect st = (Normal (elm_getBoundingClientRect e), st)
     ∧ (idx (vm st) ≠ 0%nat → dispatchEvent event st = elm_dispatchEvent e event st)
     ∧ (idx (vm st) = 0%nat →
        ∃ msg, dispatchEvent event st
               = elm_dispatchEvent e event
                   (with_console (console st ++ [(LevelWarn, msg)]) st))).
Proof.
  simpl. split.
  - intros Hc%phase_constructing.
    unfold dispatchEvent, getBoundingClientRect, getLinkedElement, bind, current, ret,
      assert_block, assert_isFalse, throw.
    rewrite Hc. split; by eexists.
  - intros Hc%phase_not_constructing.
    unfold dispatchEvent, getBoundingClientRect, getLinkedElement, bind, current, ret,
      assert_block, assert_isFalse, assert_logWarning, consoleWrite, modify, when, throw.
    rewrite Hc. split; [done|]. split.
    + intros Hidx. by rewrite bool_decide_eq_false_2.
    + intros Hidx. rewrite bool_decide_eq_true_2 by done. by eexists.
Qed.

End HostTheorems.

(** ** The statements at concrete inputs *)

#[local] Existing Instance demoCollaborators.

Lemma public_read_during_construction_witness :
  phase demoConstructing = Constructing
  ∧ get (createPublicPropertyDescriptor "label" None) demoConstructing
    = (Normal VUndefined,
       with_console [(LevelError, constructorReadMessage demoVM "label")] demoConstructing).
Proof.
  split; [reflexivity|].
  exact (public_read_during_construction "label" None demoConstructing eq_refl).
Defined.

Lemma public_write_only_during_construction_witness :
  let d := createPublicPropertyDescriptor "label" None in
  (phase demoConstructing = Constructing
   ∧ fst (get d (endConstruction (snd (set d (VRef 1) demoConstructing)))) = Normal (VProxy 1))
  ∧ (phase demoIdle ≠ Constructing
     ∧ set d (VRef 1) demoIdle
       = (Normal tt, with_console [(LevelError, lateWriteMessage demoVM "label")] demoIdle)).
Proof.
  assert (phase demoIdle ≠ Constructing) as Hidle by (vm_compute; discriminate).
  split.
  - split; [reflexivity|].
    exact (proj2 (proj2 (proj1
             (public_write_only_during_construction "label" None (VRef 1) demoConstructing)
             eq_refl eq_refl eq_refl))).
  - split; [exact Hidle|].
    exact (proj2 (public_write_only_during_construction "label" None (VRef 1) demoIdle) Hidle).
Defined.

(** The statement of C1 fails in two places.  With an author-defined setter
    the runtime hands the value over and stores nothing, so that the default
    getter later finds no value; and a read made while construction is still
    going on returns [undefined]. *)
Lemma public_write_counterexample :
  let d1 := createPublicPropertyDescriptor "label" (Some discardingSetter) in
  let d2 := createPublicPropertyDescriptor "label" None in
  phase demoConstructing = Constructing
  ∧ fst (set d1 (VNum 7) demoConstructing) = Normal tt
  ∧ fst (get d1 (endConstruction (snd (set d1 (VNum 7) demoConstructing)))) = Normal VUndefined
  ∧ fst (set d2 (VNum 7) demoConstructing) = Normal tt
  ∧ fst (get d2 (snd (set d2 (VNum 7) demoConstructing))) = Normal VUndefined.
Proof. by vm_compute. Qed.

Lemma public_read_subscribes_witness :
  let d := createPublicPropertyDescriptor "label" None in
  let afterRender := with_rendering false None (snd (get d demoRenderingStored)) in
  phase demoRenderingStored ≠ Constructing
  ∧ isRendering demoRenderingStored = true
  ∧ vmBeingRendered demoRenderingStored = Some 1%nat
  ∧ fst (get d demoRenderingStored) = Normal (VNum 7)
  ∧ (0%nat, "label", 1%nat) ∈ listeners (snd (get d demoRenderingStored))
  ∧ scheduled (snd (notifyListeners (VRef 0) "label" afterRender)) = [1%nat].
Proof.
  assert (phase demoRenderingStored ≠ Constructing) as Hphase by (vm_compute; discriminate).
  pose proof (public_read_subscribes "label" None demoRenderingStored Hphase eq_refl)
    as (Hvalue & _ & Hrender).
  destruct (Hrender 1%nat eq_refl eq_refl) as (_ & Hin & Hnotify).
  split; [exact Hphase|]. split; [reflexivity|]. split; [reflexivity|].
  split; [exact Hvalue|]. split; [exact Hin|].
  destruct (Hnotify (with_rendering false None
                       (snd (get (createPublicPropertyDescriptor "label" None)
                                 demoRenderingStored))) eq_refl)
    as (new & Hrun & _ & _ & Honly).
  assert (new = [1%nat]) as Hnew.
  { apply Honly.
    - intros c' Hc'. vm_compute in Hc'. by apply not_elem_of_nil in Hc'.
    - vm_compute. apply not_elem_of_nil. }
  rewrite Hnew in Hrun.
  exact (f_equal (λ r, scheduled (snd r)) Hrun).
Defined.

(** The statement of C6 fails on a view-model under construction: while
    context 2 renders, the constructor of the component reads [label], whose
    stored value is 7; the read returns [undefined] and subscribes nothing. *)
Lemma public_read_subscribes_counterexample :
  let d := createPublicPropertyDescriptor "label" None in
  let st := demoConstructingWhileRendering in
  isRendering st = true
  ∧ vmBeingRendered st = Some 2%nat
  ∧ readField (heap st) (cmpProps (vm st)) "label" = VNum 7
  ∧ fst (get d st) = Normal VUndefined
  ∧ listeners (snd (get d st)) = [].
Proof. by vm_compute. Qed.

Lemma wired_round_trip_witness :
  let d := createWiredPropertyDescriptor "data" in
  let st1 := snd (set d (VRef 1) demoWired) in
  (isObservable (heap demoWired) (VRef 1) = true ∧ isArray (heap demoWired) (VRef 1) = false)
  ∧ fst (get d st1) = Normal (VProxy 1)
  ∧ fst (js_get (VProxy 1) "a" (snd (get d st1))) = Normal (VNum 1)
  ∧ ∃ new, scheduled st1 = scheduled demoWired ++ new
         ∧ length (filter (λ x, x = 5%nat) new) = 1%nat.
Proof.
  assert (is_Some (heap demoWired !! 1%nat)) as Hlive by (by eexists).
  assert (cmpWired (vm demoWired) = VUndefined
          ∨ ∃ lw, cmpWired (vm demoWired) = VProxy lw ∧ lw ≠ 1%nat) as Hstore
    by (right; exists 3%nat; split; [reflexivity|discriminate]).
  assert (5%nat ∉ scheduled demoWired) as Hpending by (vm_compute; apply not_elem_of_nil).
  assert ((3%nat, "data", 5%nat) ∈ listeners demoWired) as Hsub
    by (vm_compute; apply list_elem_of_here).
  pose proof (wired_round_trip "data" (VRef 1) 1%nat demoWired
                eq_refl eq_refl eq_refl Hlive Hstore) as (_ & Hget & Hfields & Hnotify).
  split; [split; reflexivity|]. split; [exact Hget|]. split; [exact (Hfields "a")|].
  exact (Hnotify 3%nat 5%nat eq_refl Hsub Hpending).
Defined.

Lemma wired_and_state_reject_non_observable_witness :
  isArray (heap demoIdle) (VRef 2) = true
  ∧ set (createWiredPropertyDescriptor "data") (VRef 2) demoIdle
    = (Throw (Error (wiredFailMessage demoVM "data")), demoIdle)
  ∧ set_state (VRef 2) demoIdle = (Throw (Error (stateFailMessage demoVM (VRef 2))), demoIdle).
Proof.
  split; [reflexivity|].
  exact (wired_and_state_reject_non_observable "data" (VRef 2) demoIdle (or_introl eq_refl)).
Defined.

(** C2.  While the view-model is being rendered, assigning an observable
    object to [state] is carried out: no error is reported, and [state] reads
    as the new object afterwards. *)
Theorem state_write_during_render :
  isRendering demoRenderingWithState = true
  ∧ phase demoRenderingWithState = Rendering
  ∧ fst (get_state demoRenderingWithState) = Normal (VProxy 3)
  ∧ set_state (VRef 1) demoRenderingWithState
    = (Normal tt,
       with_vm (vm_with_cmpState (VProxy 1) (vm demoRenderingWithState)) demoRenderingWithState)
  ∧ fst (get_state (snd (set_state (VRef 1) demoRenderingWithState))) = Normal (VProxy 1)
  ∧ console (snd (set_state (VRef 1) demoRenderingWithState)) = [].
Proof.
  split; [reflexivity|]. split; [reflexivity|]. split; [reflexivity|].
  rewrite (set_state_ignores_rendering (VRef 1) demoRenderingWithState eq_refl eq_refl).
  by repeat split.
Qed.

Lemma queries_return_passed_in_nodes_witness :
  phase demoIdle ≠ Constructing
  ∧ fst (querySelectorAll "p" demoIdle) = Normal (VDomList [mkNode 11 0; mkNode 12 0])
  ∧ fst (querySelector "p" demoIdle) = Normal (VDom (mkNode 11 0)).
Proof.
  assert (phase demoIdle ≠ Constructing) as Hphase by (vm_compute; discriminate).
  pose proof (queries_return_passed_in_nodes "p" demoIdle Hphase) as (Hall & Hfirst & _).
  split; [exact Hphase|]. split; [exact Hall|exact Hfirst].
Defined.



Lemma disabled_global_property_witness :
  GlobalHTMLProperties !! "title" = Some (mkGlobal (Some "title") false false None)
  ∧ inPrototype ComponentElement_prototype "title" = false
  ∧ fst (readProperty "title" demoIdle) = Normal VUndefined
  ∧ length (console (snd (readProperty "title" demoIdle))) = 1%nat.
Proof.
  assert (GlobalHTMLProperties !! "title" = Some (mkGlobal (Some "title") false false None))
    as Hentry by reflexivity.
  assert (inPrototype ComponentElement_prototype "title" = false) as Hfree by reflexivity.
  split; [exact Hentry|]. split; [exact Hfree|].
  rewrite (disabled_global_property "title" _ demoIdle Hentry Hfree).
  split; reflexivity.
Defined.

(** ** The further properties at concrete inputs *)

#[local] Existing Instance demoHost.

Lemma state_write_then_read_witness :
  let st1 := snd (set_state (VRef 1) demoIdle) in
  (isArray (heap demoIdle) (VRef 1) = false ∧ isObservable (heap demoIdle) (VRef 1) = true)
  ∧ get_state st1 = (Normal (VProxy 1), st1)
  ∧ set_state (VProxy 1) st1 = (Normal tt, st1).
Proof.
  pose proof (state_write_then_read (VRef 1) demoIdle eq_refl eq_refl) as (_ & Hget & Hagain).
  split; [split; reflexivity|]. split; [exact Hget|exact Hagain].
Defined.

Lemma tabIndex_contract_witness :
  (isRendering demoIdle = false ∧ phase demoIdle ≠ Constructing
   ∧ fst (get_tabIndex (snd (set_tabIndex 3 demoIdle))) = Normal (VNum 3)
   ∧ fst (get_tabIndex (snd (set_tabIndex 2147483648 demoIdle)))
     = Normal (VNum (-2147483648)))
  ∧ (isRendering demoRendering = true
     ∧ ∃ msg, set_tabIndex 3 demoRendering = (Throw (Error msg), demoRendering))
  ∧ (phase demoConstructing = Constructing
     ∧ ∃ msg, set_tabIndex 3 demoConstructing = (Throw (Error msg), demoConstructing)).
Proof.
  assert (phase demoIdle ≠ Constructing) as Hidle by (vm_compute; discriminate).
  split; [|split].
  - split; [reflexivity|]. split; [exact Hidle|]. split.
    + destruct (proj1 (tabIndex_contract 3 demoIdle) eq_refl Hidle) as (Hset & Hget & _).
      rewrite Hset. exact (f_equal fst Hget).
    + destruct (proj1 (tabIndex_contract 2147483648 demoIdle) eq_refl Hidle)
        as (Hset & Hget & _).
      rewrite Hset. exact (f_equal fst Hget).
  - split; [reflexivity|].
    exact (proj1 (proj2 (tabIndex_contract 3 demoRendering)) eq_refl).
  - split; [reflexivity|].
    exact (proj2 (proj2 (tabIndex_contract 3 demoConstructing)) eq_refl eq_refl).
Defined.

Lemma getAttribute_only_reads_witness :
  ∃ log, snd (getAttribute [VStr "label"] demoIdle)
         = with_console (console demoIdle ++ log) demoIdle
       ∧ length log ≤ 1.
Proof.
  destruct (getAttribute_only_reads [VStr "label"] demoIdle) as (log & Hworld & Hlen & _).
  exists log. split; [exact Hworld|exact Hlen].
Defined.

Lemma sealed_prototype_members_witness :
  is_Some (GlobalHTMLProperties !! "tabIndex")
  ∧ ComponentElement_prototype_sealed !! "tabIndex" = Some (AccessorProperty get_tabIndex true)
  ∧ is_Some (ComponentElement_prototype_sealed !! "title").
Proof.
  assert (is_Some (GlobalHTMLProperties !! "tabIndex")) as Htab by (by eexists).
  assert (is_Some (GlobalHTMLProperties !! "title")) as Htitle by (by eexists).
  assert ("title" ∉ ObjectPrototypeNames) as Hfree
    by (apply (bool_decide_eq_false_1 ("title" ∈ ObjectPrototypeNames)); reflexivity).
  split; [exact Htab|]. split.
  - exact (proj1 (sealed_prototype_members "tabIndex") _ eq_refl).
  - exact (proj2 (proj2 (sealed_prototype_members "title")) (or_intror (conj Htitle Hfree))).
Defined.

Lemma wired_first_read_witness :
  let d := createWiredPropertyDescriptor "data" in
  (cmpWired (vm demoIdle) = VUndefined ∧ isRendering demoIdle = false)
  ∧ fst (get d demoIdle) = Normal VUndefined
  ∧ cmpWired (vm (snd (get d demoIdle))) = VProxy 4.
Proof.
  pose proof (wired_first_read "data" "other" demoIdle eq_refl eq_refl) as (_ & Hfirst & _).
  split; [split; reflexivity|].
  split; [exact (f_equal fst Hfirst)|].
  exact (f_equal (λ r, cmpWired (vm (snd r))) Hfirst).
Defined.

Lemma wired_write_other_property_witness :
  ("data" : string) ≠ "other"
  ∧ fst (get (createWiredPropertyDescriptor "other")
             (snd (set (createWiredPropertyDescriptor "data") (VRef 1) demoWired)))
    = fst (get (createWiredPropertyDescriptor "other") demoWired).
Proof.
  assert (("data" : string) ≠ "other") as Hne by discriminate.
  assert (is_Some (heap demoWired !! 1%nat)) as Hlive by (by eexists).
  assert (cmpWired (vm demoWired) = VUndefined
          ∨ ∃ lw, cmpWired (vm demoWired) = VProxy lw ∧ lw ≠ 1%nat) as Hstore
    by (right; exists 3%nat; split; [reflexivity|discriminate]).
  split; [exact Hne|].
  exact (wired_write_other_property "data" "other" (VRef 1) 1%nat demoWired
           Hne eq_refl eq_refl eq_refl Hlive Hstore).
Defined.

Lemma wired_read_then_write_witness :
  let d := createWiredPropertyDescriptor "data" in
  let afterRender := with_rendering false None (snd (get d demoRendering)) in
  (isRendering demoRendering = true ∧ vmBeingRendered demoRendering = Some 1%nat)
  ∧ fst (set d (VRef 1) afterRender) = Normal tt
  ∧ ∃ new, scheduled (snd (set d (VRef 1) afterRender)) = scheduled demoRendering ++ new
         ∧ length (filter (λ x, x = 1%nat) new) = 1%nat.
Proof.
  assert (is_Some (heap demoRendering !! 1%nat)) as Hlive by (by eexists).
  assert (cmpWired (vm demoRendering) = VUndefined
          ∨ ∃ lw, cmpWired (vm demoRendering) = VProxy lw ∧ lw ≠ 1%nat) as Hstore
    by (left; reflexivity).
  assert (1%nat ∉ scheduled demoRendering) as Hpending
    by (vm_compute; apply not_elem_of_nil).
  split; [split; reflexivity|].
  exact (wired_read_then_write "data" (VRef 1) 1%nat 1%nat demoRendering
           eq_refl eq_refl eq_refl eq_refl eq_refl Hlive Hstore Hpending).
Defined.

Lemma public_write_frame_witness :
  let st1 := snd (set (createPublicPropertyDescriptor "label" None) (VNum 7) demoConstructing) in
  phase demoConstructing = Constructing
  ∧ readField (heap st1) 1 "a" = readField (heap demoConstructing) 1 "a"
  ∧ vm st1 = vm demoConstructing ∧ scheduled st1 = scheduled demoConstructing.
Proof.
  pose proof (public_write_frame "label" (VNum 7) demoConstructing eq_refl)
    as (Hfields & _ & Hvm & _ & Hsch).
  split; [reflexivity|]. split; [|split; [exact Hvm|exact Hsch]].
  apply (Hfields 1%nat "a"). discriminate.
Defined.

Lemma query_side_effects_witness :
  phase demoIdle ≠ Constructing
  ∧ snd (querySelectorAll "p" demoIdle) = demoIdle
  ∧ snd (querySelector "p" demoIdle) = demoIdle.
Proof.
  assert (phase demoIdle ≠ Constructing) as Hphase by (vm_compute; discriminate).
  split; [exact Hphase|].
  apply (proj1 (query_side_effects "p" demoIdle Hphase)). discriminate.
Defined.

Lemma lazy_objects_are_distinct_witness :
  (classListObj (vm demoIdle) = VUndefined ∧ cmpRoot (vm demoIdle) = VUndefined
   ∧ cmpState (vm demoIdle) = VUndefined)
  ∧ ∃ lc lr ls,
      fst (get_classList demoIdle) = Normal (VRef lc)
      ∧ fst (get_root (snd (get_classList demoIdle))) = Normal (VRef lr)
      ∧ fst (get_state (snd (get_root (snd (get_classList demoIdle))))) = Normal (VProxy ls)
      ∧ lc ≠ lr ∧ lc ≠ ls ∧ lr ≠ ls.
Proof.
  split; [repeat split|].
  destruct (lazy_objects_are_distinct demoIdle eq_refl eq_refl eq_refl)
    as (lc & lr & ls & H1 & H2 & H3 & Hcr & Hcs & Hrs & _).
  exists lc, lr, ls. repeat split; assumption.
Defined.

Lemma calls_preserve_the_stores_witness :
  let ops := [WritePublic "label" (VNum 7); ReadWired "data"; WriteWired "data" (VRef 1);
              WriteState (VRef 2); WriteState (VRef 1); ReadClassList;
              CallQuerySelector "q"; ReadMember "title"] in
  storesWrapped demoConstructing
  ∧ storesWrapped (performAll ops demoConstructing)
  ∧ cmpProps (vm (performAll ops demoConstructing)) = 0%nat
  ∧ is_Some (heap (performAll ops demoConstructing) !! 2%nat).
Proof.
  assert (storesWrapped demoConstructing) as Hinit by (split; reflexivity).
  assert (is_Some (heap demoConstructing !! 2%nat)) as Hlive by (by eexists).
  intros ops.
  destruct (calls_preserve_the_stores ops demoConstructing)
    as (_ & Hprops & Hstores & Hheap).
  split; [exact Hinit|]. split; [exact (Hstores Hinit)|].
  split; [exact Hprops|exact (proj1 (Hheap 2%nat Hlive))].
Defined.

Lemma host_methods_contract_witness :
  (phase demoConstructing = Constructing
   ∧ ∃ msg, dispatchEvent (mkEvent "change") demoConstructing
            = (Throw (Error msg), demoConstructing))
  ∧ (phase demoIdle ≠ Constructing ∧ idx (vm demoIdle) ≠ 0%nat
     ∧ dispatchEvent (mkEvent "change") demoIdle = (Normal true, demoIdle)).
Proof.
  assert (phase demoIdle ≠ Constructing) as Hphase by (vm_compute; discriminate).
  assert (idx (vm demoIdle) ≠ 0%nat) as Hidx by discriminate.
  split.
  - split; [reflexivity|].
    exact (proj1 (proj1 (host_methods_contract (mkEvent "change") demoConstructing) eq_refl)).
  - split; [exact Hphase|]. split; [exact Hidx|].
    exact (proj1 (proj2 (proj2 (host_methods_contract (mkEvent "change") demoIdle) Hphase))
             Hidx).
Defined.

Lemma lazy_objects_are_singletons_witness :
  let ops := [ReadClassList; CallQuerySelector "q"; WriteWired "data" (VRef 1);
              WritePublic "label" (VNum 7); ReadMember "title"] in
  (∀ op, op ∈ ops → assignsState op = false)
  ∧ ∃ v st1, get_state demoIdle = (Normal v, st1)
           ∧ v = VProxy 4
           ∧ cmpState (vm st1) = v
           ∧ fst (get_state (performAll ops st1)) = Normal v.
Proof.
  intros ops.
  assert (∀ op, op ∈ ops → assignsState op = false) as Hops.
  { intros op Hin. unfold ops in Hin.
    repeat (apply elem_of_cons in Hin as [->|Hin]; [reflexivity|]).
    by apply not_elem_of_nil in Hin. }
  split; [exact Hops|].
  destruct (proj1 (lazy_objects_are_singletons demoIdle))
    as (v & st1 & Hget & _ & Hv & _ & Hheld & _ & Hstable).
  exists v, st1. split; [exact Hget|]. split; [exact Hv|]. split; [exact Hheld|].
  exact (f_equal fst (Hstable ops Hops)).
Defined.
